(** * brickblock.space: the indexed store of a 3D coordinate space

    A shallow embedding of [src/brickblock/space.py].  The class [Space] is a
    record, its methods are computations in a small state-and-exception monad
    whose result carries the state as the method left it, also when it
    raised: Python does not roll anything back on [raise].

    numpy's float64 is the kernel's binary64 ([PrimFloat]); Python's [int]
    counters never go below zero here and are [nat]; dictionaries are
    [gmap]s, keyword arguments an association list in call order. *)

From Stdlib Require Import ZArith List String PrimFloat Uint63 Lia.
From stdpp Require Import gmap strings list.

(** ** numpy and Python numerics *)

Module Np.

(** An [int] operand of a float64 array operation is converted to float64.
    The conversion goes through a 63-bit integer, which every row count
    that fits in memory is. *)
Definition of_count (n : nat) : float :=
  PrimFloat.of_uint63 (Uint63.of_Z (Z.of_nat n)).

Definition isnan (x : float) : bool := negb (PrimFloat.eqb x x).

(** [np.minimum] and [np.maximum]: a NaN operand wins. *)
Definition minimum (a b : float) : float :=
  if PrimFloat.leb a b || isnan a then a else b.

Definition maximum (a b : float) : float :=
  if PrimFloat.leb b a || isnan a then a else b.

(** Python's builtin [min(a, b)] and [max(a, b)]: the first argument unless
    the second is strictly better. *)
Definition pymin (a b : float) : float := if PrimFloat.ltb b a then b else a.
Definition pymax (a b : float) : float := if PrimFloat.ltb a b then b else a.

End Np.

(** A row of three float64: a point, or one value per axis.  The store keeps
    the axes in the order (w, d, h). *)
Record vec3 : Type := Vec3 { c0 : float; c1 : float; c2 : float }.

Definition vzero : vec3 := Vec3 0%float 0%float 0%float.

Definition vmap2 (f : float -> float -> float) (a b : vec3) : vec3 :=
  Vec3 (f (c0 a) (c0 b)) (f (c1 a) (c1 b)) (f (c2 a) (c2 b)).

Definition vadd : vec3 -> vec3 -> vec3 := vmap2 PrimFloat.add.

Definition vdiv (a : vec3) (d : float) : vec3 :=
  Vec3 (PrimFloat.div (c0 a) d) (PrimFloat.div (c1 a) d) (PrimFloat.div (c2 a) d).

(** [np.array_equal] on two arrays of shape (3,): every component [==]. *)
Definition array_equal (a b : vec3) : bool :=
  PrimFloat.eqb (c0 a) (c0 b) && PrimFloat.eqb (c1 a) (c1 b)
  && PrimFloat.eqb (c2 a) (c2 b).

(** A reduction along axis 0 of an (N, 3) array: [None] stands for the
    [ValueError] numpy raises on a zero-size array without identity. *)
Definition reduce_axis0 (f : float -> float -> float) (pts : list vec3)
  : option vec3 :=
  match pts with
  | [] => None
  | p :: ps => Some (fold_left (vmap2 f) ps p)
  end.

(** [np.mean(pts, axis=0)]: the column sums over the row count.  The sum of
    no rows is zero, and the mean of no rows is 0/0. *)
Definition mean_axis0 (pts : list vec3) : vec3 :=
  vdiv (default vzero (reduce_axis0 PrimFloat.add pts))
       (Np.of_count (length pts)).

(** A 3x2 array of per-axis [min, max], kept as its two columns:
    [lo] is [dims[:, 0]] and [hi] is [dims[:, 1]]. *)
Record dims3 : Type := Dims3 { lo : vec3; hi : vec3 }.

Definition dzero : dims3 := Dims3 vzero vzero.

(** ** Geometry: 6 faces x 4 vertices x 3 coordinates *)

Record quad : Type := Quad { q0 : vec3; q1 : vec3; q2 : vec3; q3 : vec3 }.

Record faces : Type :=
  Faces { f0 : quad; f1 : quad; f2 : quad; f3 : quad; f4 : quad; f5 : quad }.

Definition quad_points (q : quad) : list vec3 := [q0 q; q1 q; q2 q; q3 q].

(** [faces.reshape((-1, 3))] of one primitive: its 24 points, row-major. *)
Definition faces_points (f : faces) : list vec3 :=
  quad_points (f0 f) ++ quad_points (f1 f) ++ quad_points (f2 f)
  ++ quad_points (f3 f) ++ quad_points (f4 f) ++ quad_points (f5 f).

Definition qzero : quad := Quad vzero vzero vzero vzero.
Definition fzero : faces := Faces qzero qzero qzero qzero qzero qzero.

(** Python values held by the visual metadata: [None], a string (a colour),
    or a float (line width, opacity). *)
Inductive pyval : Type :=
  | VNone
  | VStr (s : string)
  | VFloat (x : float).

(** A Python [slice(start, stop)]. *)
Record slice : Type := Slice { start : nat; stop : nat }.

(** ** The objects handed to the space

    Modelled from the spec: [brickblock/objects.py] is not among the sources.
    A primitive exposes its 6x4x3 faces, [points()], [get_bounding_box()]
    (3x2, per-axis min and max), [get_visual_metadata()] and an optional
    name; a composite its kx6x4x3 faces, a style tag, its visual metadata
    and an optional name.  The results of the accessor calls are fields. *)
Record Cube : Type := {
  cube_faces : faces;
  cube_points : list vec3;
  cube_bounding_box : dims3;
  cube_visual_metadata : list (string * pyval);
  cube_name : option string
}.

(** [_add_cuboid_primitive] takes [Cube | Cuboid] and uses the same members
    of both. *)
Definition Cuboid : Type := Cube.

Record CompositeCube : Type := {
  comp_faces : list faces;
  comp_style : string;
  comp_visual_metadata : list (string * pyval);
  comp_name : option string
}.

(** ** The change log *)

Inductive subject : Type :=
  | SubjectCoordinate (v : vec3)
  | SubjectProperties (before after : list (string * pyval)).

Inductive SpaceStateChange : Type :=
  | Addition (timestep_id : nat) (name : option string)
  | Mutation (name : option string) (primitive_id timestep_id scene_id : option nat)
             (subj : subject)
  | Deletion (timestep_id : nat) (name : option string).

(** ** The temporal and scene index

    Modelled from the spec: [brickblock/index.py] is not among the sources.
    The index records, for every primitive id and every composite range, the
    time step and the scene at which it was registered, and hands them back
    in the order registered, by time step, or by scene. *)
Module SpaceIndex.

Record entry (A : Type) : Type :=
  Entry { item : A; at_timestep : nat; at_scene : nat }.
Arguments Entry {A} _ _ _.
Arguments item {A} _.
Arguments at_timestep {A} _.
Arguments at_scene {A} _.

Record t : Type := {
  primitive_buffer : list (entry nat);
  composite_buffer : list (entry slice)
}.

Definition empty : t := {| primitive_buffer := []; composite_buffer := [] |}.

Definition add_primitive_to_index (i : t) (id ts sc : nat) : t :=
  {| primitive_buffer := primitive_buffer i ++ [Entry id ts sc];
     composite_buffer := composite_buffer i |}.

Definition add_composite_to_index (i : t) (ids : slice) (ts sc : nat) : t :=
  {| primitive_buffer := primitive_buffer i;
     composite_buffer := composite_buffer i ++ [Entry ids ts sc] |}.

(** [primitives()] and [composites()]: restartable, every call starts at
    the first item registered. *)
Definition primitives (i : t) : list nat := map item (primitive_buffer i).
Definition composites (i : t) : list slice := map item (composite_buffer i).

Definition registered_at {A} (key : entry A -> nat) (k : nat)
    (l : list (entry A)) : list A :=
  map item (List.filter (fun e => Nat.eqb (key e) k) l).

Definition get_primitives_by_timestep (i : t) (ts : nat) : list nat :=
  registered_at at_timestep ts (primitive_buffer i).
Definition get_composites_by_timestep (i : t) (ts : nat) : list slice :=
  registered_at at_timestep ts (composite_buffer i).
Definition get_primitives_by_scene (i : t) (sc : nat) : list nat :=
  registered_at at_scene sc (primitive_buffer i).
Definition get_composites_by_scene (i : t) (sc : nat) : list slice :=
  registered_at at_scene sc (composite_buffer i).

(** Whether the scene about to be closed has recorded activity.  The space
    names that scene by the number of scenes there will be once it is
    closed, [scene_counter + 1], while it registers objects under
    [scene_counter]: the scene asked about is the one with id
    [expected_num_scenes - 1]. *)
Definition current_scene_is_valid (i : t) (expected_num_scenes : nat) : bool :=
  existsb (fun e => Nat.eqb (S (at_scene e)) expected_num_scenes)
          (primitive_buffer i)
  || existsb (fun e => Nat.eqb (S (at_scene e)) expected_num_scenes)
             (composite_buffer i).

End SpaceIndex.

(** ** The space and its methods *)

(** What a name denotes: [cuboid_names[name] = [primitive ids or None,
    composite slices or None]]. *)
Definition object_ids : Type := (option (list nat) * option (list slice))%type.

Record Space : Type := {
  dims : dims3;
  mean : vec3;
  total : vec3;
  num_objs : nat;
  primitive_counter : nat;
  time_step : nat;
  scene_counter : nat;
  cuboid_coordinates : list faces;
  cuboid_visual_metadata : gmap string (list pyval);
  cuboid_index : SpaceIndex.t;
  cuboid_names : gmap string object_ids;
  changelog : list SpaceStateChange
}.

(** [Space.__init__] *)
Definition init : Space := {|
  dims := dzero;
  mean := vzero;
  total := vzero;
  num_objs := 0;
  primitive_counter := 0;
  time_step := 0;
  scene_counter := 0;
  cuboid_coordinates := repeat fzero 10;
  cuboid_visual_metadata := ∅;
  cuboid_index := SpaceIndex.empty;
  cuboid_names := ∅;
  changelog := []
|}.

Definition set_dims (v : dims3) (s : Space) : Space :=
  {| dims := v; mean := mean s; total := total s; num_objs := num_objs s;
     primitive_counter := primitive_counter s; time_step := time_step s;
     scene_counter := scene_counter s;
     cuboid_coordinates := cuboid_coordinates s;
     cuboid_visual_metadata := cuboid_visual_metadata s;
     cuboid_index := cuboid_index s; cuboid_names := cuboid_names s;
     changelog := changelog s |}.

Definition set_mean (v : vec3) (s : Space) : Space :=
  {| dims := dims s; mean := v; total := total s; num_objs := num_objs s;
     primitive_counter := primitive_counter s; time_step := time_step s;
     scene_counter := scene_counter s;
     cuboid_coordinates := cuboid_coordinates s;
     cuboid_visual_metadata := cuboid_visual_metadata s;
     cuboid_index := cuboid_index s; cuboid_names := cuboid_names s;
     changelog := changelog s |}.

Definition set_total (v : vec3) (s : Space) : Space :=
  {| dims := dims s; mean := mean s; total := v; num_objs := num_objs s;
     primitive_counter := primitive_counter s; time_step := time_step s;
     scene_counter := scene_counter s;
     cuboid_coordinates := cuboid_coordinates s;
     cuboid_visual_metadata := cuboid_visual_metadata s;
     cuboid_index := cuboid_index s; cuboid_names := cuboid_names s;
     changelog := changelog s |}.

Definition set_num_objs (v : nat) (s : Space) : Space :=
  {| dims := dims s; mean := mean s; total := total s; num_objs := v;
     primitive_counter := primitive_counter s; time_step := time_step s;
     scene_counter := scene_counter s;
     cuboid_coordinates := cuboid_coordinates s;
     cuboid_visual_metadata := cuboid_visual_metadata s;
     cuboid_index := cuboid_index s; cuboid_names := cuboid_names s;
     changelog := changelog s |}.

Definition set_primitive_counter (v : nat) (s : Space) : Space :=
  {| dims := dims s; mean := mean s; total := total s; num_objs := num_objs s;
     primitive_counter := v; time_step := time_step s;
     scene_counter := scene_counter s;
     cuboid_coordinates := cuboid_coordinates s;
     cuboid_visual_metadata := cuboid_visual_metadata s;
     cuboid_index := cuboid_index s; cuboid_names := cuboid_names s;
     changelog := changelog s |}.

Definition set_time_step (v : nat) (s : Space) : Space :=
  {| dims := dims s; mean := mean s; total := total s; num_objs := num_objs s;
     primitive_counter := primitive_counter s; time_step := v;
     scene_counter := scene_counter s;
     cuboid_coordinates := cuboid_coordinates s;
     cuboid_visual_metadata := cuboid_visual_metadata s;
     cuboid_index := cuboid_index s; cuboid_names := cuboid_names s;
     changelog := changelog s |}.

Definition set_scene_counter (v : nat) (s : Space) : Space :=
  {| dims := dims s; mean := mean s; total := total s; num_objs := num_objs s;
     primitive_counter := primitive_counter s; time_step := time_step s;
     scene_counter := v;
     cuboid_coordinates := cuboid_coordinates s;
     cuboid_visual_metadata := cuboid_visual_metadata s;
     cuboid_index := cuboid_index s; cuboid_names := cuboid_names s;
     changelog := changelog s |}.

Definition set_cuboid_coordinates (v : list faces) (s : Space) : Space :=
  {| dims := dims s; mean := mean s; total := total s; num_objs := num_objs s;
     primitive_counter := primitive_counter s; time_step := time_step s;
     scene_counter := scene_counter s;
     cuboid_coordinates := v;
     cuboid_visual_metadata := cuboid_visual_metadata s;
     cuboid_index := cuboid_index s; cuboid_names := cuboid_names s;
     changelog := changelog s |}.

Definition set_cuboid_visual_metadata (v : gmap string (list pyval))
    (s : Space) : Space :=
  {| dims := dims s; mean := mean s; total := total s; num_objs := num_objs s;
     primitive_counter := primitive_counter s; time_step := time_step s;
     scene_counter := scene_counter s;
     cuboid_coordinates := cuboid_coordinates s;
     cuboid_visual_metadata := v;
     cuboid_index := cuboid_index s; cuboid_names := cuboid_names s;
     changelog := changelog s |}.

Definition set_cuboid_index (v : SpaceIndex.t) (s : Space) : Space :=
  {| dims := dims s; mean := mean s; total := total s; num_objs := num_objs s;
     primitive_counter := primitive_counter s; time_step := time_step s;
     scene_counter := scene_counter s;
     cuboid_coordinates := cuboid_coordinates s;
     cuboid_visual_metadata := cuboid_visual_metadata s;
     cuboid_index := v; cuboid_names := cuboid_names s;
     changelog := changelog s |}.

Definition set_cuboid_names (v : gmap string object_ids) (s : Space) : Space :=
  {| dims := dims s; mean := mean s; total := total s; num_objs := num_objs s;
     primitive_counter := primitive_counter s; time_step := time_step s;
     scene_counter := scene_counter s;
     cuboid_coordinates := cuboid_coordinates s;
     cuboid_visual_metadata := cuboid_visual_metadata s;
     cuboid_index := cuboid_index s; cuboid_names := v;
     changelog := changelog s |}.

Definition set_changelog (v : list SpaceStateChange) (s : Space) : Space :=
  {| dims := dims s; mean := mean s; total := total s; num_objs := num_objs s;
     primitive_counter := primitive_counter s; time_step := time_step s;
     scene_counter := scene_counter s;
     cuboid_coordinates := cuboid_coordinates s;
     cuboid_visual_metadata := cuboid_visual_metadata s;
     cuboid_index := cuboid_index s; cuboid_names := cuboid_names s;
     changelog := v |}.

(** *** Methods as state transformers that may raise *)

Inductive exn : Type :=
  | PyException          (* [raise Exception(...)] *)
  | ValueError
  | KeyError
  | IndexError
  | NotImplementedError.

(** [Diverge]: the method has not returned (a [while] loop that does not
    end). *)
Inductive result (A : Type) : Type :=
  | Ok (a : A)
  | Raise (e : exn)
  | Diverge.
Arguments Ok {A} _.
Arguments Raise {A} _.
Arguments Diverge {A}.

Definition M (A : Type) : Type := Space -> Space * result A.

Definition ret {A} (a : A) : M A := fun s => (s, Ok a).

Definition bind {A B} (c : M A) (k : A -> M B) : M B :=
  fun s =>
    match c s with
    | (s', Ok a) => k a s'
    | (s', Raise e) => (s', Raise e)
    | (s', Diverge) => (s', Diverge)
    end.

Definition raise {A} (e : exn) : M A := fun s => (s, Raise e).
Definition diverge {A} : M A := fun s => (s, Diverge).
Definition gets {A} (f : Space -> A) : M A := fun s => (s, Ok (f s)).
Definition modify (f : Space -> Space) : M unit := fun s => (f s, Ok tt).

Notation "x <- c ;; k" := (bind c (fun x => k))
  (at level 100, c at next level, k at level 200, only parsing).
Notation "c ;; k" := (bind c (fun _ => k))
  (at level 100, k at level 200, only parsing).

(** [for x in l: body(x)] *)
Fixpoint for_each {A} (l : list A) (body : A -> M unit) : M unit :=
  match l with
  | [] => ret tt
  | x :: xs => body x ;; for_each xs body
  end.

(** *** Array and list primitives *)

(** [l[start:stop]] *)
Definition getslice {A} (l : list A) (sl : slice) : list A :=
  firstn (stop sl - start sl) (skipn (start sl) l).

(** [l[start:stop] = vals] on a Python list: the bounds are clipped to the
    list, the slice is replaced by [vals] whatever their number. *)
Definition list_setslice {A} (l : list A) (sl : slice) (vals : list A) : list A :=
  let a := Nat.min (start sl) (length l) in
  let b := Nat.max a (Nat.min (stop sl) (length l)) in
  firstn a l ++ vals ++ skipn b l.

(** [ndarray.resize((n, 6, 4, 3), refcheck=False)]: in place, new rows are
    zero. *)
Definition resize (n : nat) (a : list faces) : list faces :=
  firstn n a ++ repeat fzero (n - length a).

(** [a[base:offset] = rows] on the coordinate array: the target rows are
    those of the slice that exist; [rows] must have as many rows, or be a
    single row, which numpy broadcasts; otherwise [ValueError] ([None]). *)
Definition array_setslice (a : list faces) (sl : slice) (rows : list faces)
  : option (list faces) :=
  let a0 := Nat.min (start sl) (length a) in
  let b0 := Nat.max a0 (Nat.min (stop sl) (length a)) in
  let m := b0 - a0 in
  if Nat.eqb (length rows) m then Some (firstn a0 a ++ rows ++ skipn b0 a)
  else match rows with
       | [r] => Some (firstn a0 a ++ repeat r m ++ skipn b0 a)
       | _ => None
       end.

(** The loop [while (2 * current_no_of_entries) < num_cubes:
    current_no_of_entries *= 2]; [None] when it has not ended after [fuel]
    doublings. *)
Fixpoint double_until (fuel current num_cubes : nat) : option nat :=
  match fuel with
  | O => if 2 * current <? num_cubes then None else Some current
  | S fuel' =>
      if 2 * current <? num_cubes
      then double_until fuel' (2 * current) num_cubes
      else Some current
  end.

Definition reduce_rows (f : float -> float -> float) (p : vec3)
    (ps : list vec3) : vec3 :=
  fold_left (vmap2 f) ps p.

(** *** Insertion *)

(** The loops over [get_visual_metadata().items()]: a known property gets
    the new value(s) appended, a new one starts with them. *)
Definition append_visual (m : gmap string (list pyval)) (kv : string * pyval)
  : gmap string (list pyval) :=
  match m !! kv.1 with
  | Some l => <[kv.1 := l ++ [kv.2]]> m
  | None => <[kv.1 := [kv.2]]> m
  end.

Definition extend_visual (num_cubes : nat) (m : gmap string (list pyval))
    (kv : string * pyval) : gmap string (list pyval) :=
  match m !! kv.1 with
  | Some l => <[kv.1 := l ++ repeat kv.2 num_cubes]> m
  | None => <[kv.1 := repeat kv.2 num_cubes]> m
  end.

(** [dim]: the box of the first object as it is, afterwards the extrema of
    the old dims and the box, by Python's [min] and [max]. *)
Definition surrounding_box (pc : nat) (d box : dims3) : dims3 :=
  if Nat.eqb pc 0 then box
  else Dims3 (vmap2 Np.pymin (lo d) (lo box)) (vmap2 Np.pymax (hi d) (hi box)).

(** [self.cuboid_coordinates[i] = faces] *)
Definition store_row (i : nat) (f : faces) : M unit :=
  fun s =>
    if i <? length (cuboid_coordinates s)
    then (set_cuboid_coordinates (<[i := f]> (cuboid_coordinates s)) s, Ok tt)
    else (s, Raise IndexError).

(** [self.cuboid_coordinates[base:offset] = composite.faces] *)
Definition store_rows (ids : slice) (rows : list faces) : M unit :=
  fun s =>
    match array_setslice (cuboid_coordinates s) ids rows with
    | Some a => (set_cuboid_coordinates a s, Ok tt)
    | None => (s, Raise ValueError)
    end.

Definition _add_cuboid_primitive (cuboid : Cube) : M nat :=
  let cuboid_bounding_box := cube_bounding_box cuboid in
  let cuboid_mean := mean_axis0 (cube_points cuboid) in
  modify (fun s => set_total (vadd (total s) cuboid_mean) s) ;;
  modify (fun s =>
    set_mean (vdiv (total s) (Np.of_count (primitive_counter s + 1))) s) ;;
  modify (fun s =>
    set_dims (surrounding_box (primitive_counter s) (dims s)
                              cuboid_bounding_box) s) ;;
  current_no_of_entries <- gets (fun s => length (cuboid_coordinates s)) ;;
  pc <- gets primitive_counter ;;
  (if current_no_of_entries <=? pc
   then modify (fun s =>
          set_cuboid_coordinates
            (resize (2 * current_no_of_entries) (cuboid_coordinates s)) s)
   else ret tt) ;;
  store_row pc (cube_faces cuboid) ;;
  modify (fun s =>
    set_cuboid_visual_metadata
      (fold_left append_visual (cube_visual_metadata cuboid)
                 (cuboid_visual_metadata s)) s) ;;
  modify (fun s =>
    set_cuboid_index
      (SpaceIndex.add_primitive_to_index (cuboid_index s)
         (primitive_counter s) (time_step s) (scene_counter s)) s) ;;
  primitive_id <- gets primitive_counter ;;
  modify (fun s => set_primitive_counter (primitive_counter s + 1) s) ;;
  ret primitive_id.

Definition _add_name (name : option string) (ids : object_ids) : M unit :=
  match name with
  | None => ret tt
  | Some n =>
      fun s =>
        match cuboid_names s !! n with
        | Some _ => (s, Raise PyException)
        | None =>
            match ids with
            | (None, None) => (s, Raise PyException)
            | _ => (set_cuboid_names (<[n := ids]> (cuboid_names s)) s, Ok tt)
            end
        end
  end.

(** [np.min(primitives, axis=0)] and [np.max(primitives, axis=0)] over the
    points of some rows; [None] is the [ValueError] on no rows. *)
Definition given_extrema (rows : list faces) : option dims3 :=
  let primitives := concat (map faces_points rows) in
  match reduce_axis0 Np.minimum primitives,
        reduce_axis0 Np.maximum primitives with
  | Some given_mins, Some given_maxes => Some (Dims3 given_mins given_maxes)
  | _, _ => None
  end.

(** [dims[:, 0] = np.minimum(dims[:, 0], given_mins)] and
    [dims[:, 1] = np.maximum(dims[:, 1], given_maxes)]. *)
Definition widen (d given : dims3) : dims3 :=
  Dims3 (vmap2 Np.minimum (lo d) (lo given))
        (vmap2 Np.maximum (hi d) (hi given)).

(** [reshape((N * 6 * 4, 3))] raises when the slice holds fewer than [N]
    rows, and the reductions raise on no rows at all. *)
Definition _update_bounds (primitive_ids : slice) : M unit :=
  fun s =>
    let n := stop primitive_ids - start primitive_ids in
    let rows := getslice (cuboid_coordinates s) primitive_ids in
    if negb (length rows =? n) then (s, Raise ValueError)
    else
      match given_extrema rows with
      | Some given => (set_dims (widen (dims s) given) s, Ok tt)
      | None => (s, Raise ValueError)
      end.

(** The tail shared by [add_cube], [add_cuboid] and [add_composite]. *)
Definition record_addition : M unit :=
  modify (fun s => set_num_objs (num_objs s + 1) s) ;;
  modify (fun s =>
    set_changelog (changelog s ++ [Addition (time_step s) None]) s) ;;
  modify (fun s => set_time_step (time_step s + 1) s).

Definition add_cube (cube : Cube) : M unit :=
  primitive_id <- _add_cuboid_primitive cube ;;
  _add_name (cube_name cube) (Some [primitive_id], None) ;;
  record_addition ;;
  _update_bounds (Slice primitive_id (primitive_id + 1)).

Definition add_cuboid (cuboid : Cuboid) : M unit :=
  primitive_id <- _add_cuboid_primitive cuboid ;;
  _add_name (cube_name cuboid) (Some [primitive_id], None) ;;
  record_addition ;;
  _update_bounds (Slice primitive_id (primitive_id + 1)).

(** [np.array([faces[0][0], faces[-1][-1]]).reshape((8, 3))] and its
    per-column extrema. *)
Definition composite_extrema (first last : faces) : dims3 :=
  let rest := [q1 (f0 first); q2 (f0 first); q3 (f0 first)]
              ++ quad_points (f5 last) in
  Dims3 (reduce_rows Np.minimum (q0 (f0 first)) rest)
        (reduce_rows Np.maximum (q0 (f0 first)) rest).

Definition add_composite (composite : CompositeCube) : M unit :=
  let num_cubes := length (comp_faces composite) in
  let flattened_faces := concat (map faces_points (comp_faces composite)) in
  modify (fun s => set_total (vadd (total s) (mean_axis0 flattened_faces)) s) ;;
  modify (fun s =>
    set_mean (vdiv (total s) (Np.of_count (primitive_counter s + 1))) s) ;;
  match comp_faces composite with
  | [] => raise IndexError
  | first :: _ =>
      let extrema :=
        composite_extrema first (List.last (comp_faces composite) first) in
      modify (fun s =>
        set_dims (surrounding_box (primitive_counter s) (dims s) extrema) s) ;;
      current_no_of_entries <- gets (fun s => length (cuboid_coordinates s)) ;;
      base <- gets primitive_counter ;;
      (if current_no_of_entries <=? base + num_cubes
       then match double_until num_cubes current_no_of_entries num_cubes with
            | Some n =>
                modify (fun s =>
                  set_cuboid_coordinates
                    (resize (2 * n) (cuboid_coordinates s)) s)
            | None => diverge
            end
       else ret tt) ;;
      let offset := base + num_cubes in
      store_rows (Slice base offset) (comp_faces composite) ;;
      modify (fun s =>
        set_cuboid_visual_metadata
          (fold_left (extend_visual num_cubes)
                     (comp_visual_metadata composite)
                     (cuboid_visual_metadata s)) s) ;;
      modify (fun s =>
        set_primitive_counter (primitive_counter s + num_cubes) s) ;;
      let primitive_ids := Slice base offset in
      modify (fun s =>
        set_cuboid_index
          (SpaceIndex.add_composite_to_index (cuboid_index s) primitive_ids
             (time_step s) (scene_counter s)) s) ;;
      (if String.eqb (comp_style composite) "classic"
       then raise NotImplementedError else ret tt) ;;
      _add_name (comp_name composite) (None, Some [primitive_ids]) ;;
      record_addition ;;
      _update_bounds primitive_ids
  end.

(** *** Selection *)

Definition selection : Type := (list nat * list slice)%type.

(** [for idx in range(primitive_counter): if np.array_equal(
    self.cuboid_coordinates[idx][0, 0], coordinate): ...append(idx)];
    [None] is the [IndexError] of a row beyond the array. *)
Fixpoint matching_base_vectors (coords : list faces) (coordinate : vec3)
    (idxs : list nat) : option (list nat) :=
  match idxs with
  | [] => Some []
  | idx :: rest =>
      match coords !! idx with
      | None => None
      | Some primitive =>
          match matching_base_vectors coords coordinate rest with
          | None => None
          | Some found =>
              Some (if array_equal (q0 (f0 primitive)) coordinate
                    then idx :: found else found)
          end
      end
  end.

(** The locals of the walk over the matches. *)
Record walk : Type := {
  primitive_id : option nat;
  composite_slice : option slice;
  primitives_to_update : list nat;
  composites_to_update : list slice
}.

(** One turn of [for idx in matching_base_vectors].  [next(
    self.cuboid_index.primitives(), None)] asks the index for its primitives
    anew and takes the first. *)
Definition walk_step (index : SpaceIndex.t) (w : walk) (idx : nat) : walk :=
  let w1 :=
    match primitive_id w with
    | Some p =>
        if Nat.eqb p idx
        then {| primitive_id := head (SpaceIndex.primitives index);
                composite_slice := composite_slice w;
                primitives_to_update := primitives_to_update w ++ [p];
                composites_to_update := composites_to_update w |}
        else w
    | None => w
    end in
  match composite_slice w1 with
  | Some c =>
      if Nat.eqb (start c) idx
      then {| primitive_id := primitive_id w1;
              composite_slice := head (SpaceIndex.composites index);
              primitives_to_update := primitives_to_update w1;
              composites_to_update := composites_to_update w1 ++ [c] |}
      else w1
  | None => w1
  end.

Definition _select_by_coordinate (coordinate : list float) : M selection :=
  match coordinate with
  | [w; h; d] =>
      let coordinate := Vec3 w d h in
      fun s =>
        match matching_base_vectors (cuboid_coordinates s) coordinate
                (seq 0 (primitive_counter s)) with
        | None => (s, Raise IndexError)
        | Some matching =>
            let index := cuboid_index s in
            let w0 := {| primitive_id := head (SpaceIndex.primitives index);
                         composite_slice := head (SpaceIndex.composites index);
                         primitives_to_update := [];
                         composites_to_update := [] |} in
            let w' := fold_left (walk_step index) matching w0 in
            (s, Ok (primitives_to_update w', composites_to_update w'))
        end
  | _ => raise ValueError
  end.

Definition _select_by_name (name : string) : M selection :=
  fun s =>
    match cuboid_names s !! name with
    | None => (s, Raise ValueError)
    | Some (primitive_ids, composite_ids) =>
        (s, Ok (default [] primitive_ids, default [] composite_ids))
    end.

Definition _select_by_timestep (timestep : Z) : M selection :=
  fun s =>
    if ((timestep <? 0) || (Z.of_nat (time_step s) <? timestep))%Z
    then (s, Raise ValueError)
    else (s, Ok (SpaceIndex.get_primitives_by_timestep (cuboid_index s)
                   (Z.to_nat timestep),
                 SpaceIndex.get_composites_by_timestep (cuboid_index s)
                   (Z.to_nat timestep))).

Definition _select_by_scene (scene : Z) : M selection :=
  fun s =>
    if ((scene <? 0) || (Z.of_nat (scene_counter s) <? scene))%Z
    then (s, Raise ValueError)
    else (s, Ok (SpaceIndex.get_primitives_by_scene (cuboid_index s)
                   (Z.to_nat scene),
                 SpaceIndex.get_composites_by_scene (cuboid_index s)
                   (Z.to_nat scene))).

(** *** Mutation *)

(** [self.cuboid_visual_metadata[key][primitive_id] = value] *)
Definition visual_setitem (key : string) (primitive_id : nat) (value : pyval)
  : M unit :=
  fun s =>
    match cuboid_visual_metadata s !! key with
    | None => (s, Raise KeyError)
    | Some l =>
        if primitive_id <? length l
        then (set_cuboid_visual_metadata
                (<[key := <[primitive_id := value]> l]>
                   (cuboid_visual_metadata s)) s, Ok tt)
        else (s, Raise IndexError)
    end.

(** [self.cuboid_visual_metadata[key][composite_id] = [value] * N] *)
Definition visual_setslice (key : string) (composite_id : slice)
    (value : pyval) : M unit :=
  fun s =>
    match cuboid_visual_metadata s !! key with
    | None => (s, Raise KeyError)
    | Some l =>
        let n := stop composite_id - start composite_id in
        (set_cuboid_visual_metadata
           (<[key := list_setslice l composite_id (repeat value n)]>
              (cuboid_visual_metadata s)) s, Ok tt)
    end.

Definition mutate_key (primitive_ids : list nat) (composite_ids : list slice)
    (kv : string * pyval) : M unit :=
  known <- gets (fun s => cuboid_visual_metadata s !! kv.1) ;;
  match known with
  | None => raise KeyError
  | Some _ =>
      for_each primitive_ids (fun primitive_id =>
        visual_setitem kv.1 primitive_id kv.2) ;;
      for_each composite_ids (fun composite_id =>
        visual_setslice kv.1 composite_id kv.2)
  end.

Definition _mutate_by_ids (primitive_ids : list nat)
    (composite_ids : list slice) (kwargs : list (string * pyval)) : M unit :=
  for_each kwargs (mutate_key primitive_ids composite_ids).

Definition mutate_by_coordinate (coordinate : list float)
    (kwargs : list (string * pyval)) : M unit :=
  sel <- _select_by_coordinate coordinate ;;
  _mutate_by_ids sel.1 sel.2 kwargs.

Definition mutate_by_name (name : string) (kwargs : list (string * pyval))
  : M unit :=
  sel <- _select_by_name name ;;
  _mutate_by_ids sel.1 sel.2 kwargs.

Definition mutate_by_timestep (timestep : Z) (kwargs : list (string * pyval))
  : M unit :=
  sel <- _select_by_timestep timestep ;;
  _mutate_by_ids sel.1 sel.2 kwargs.

Definition mutate_by_scene (scene : Z) (kwargs : list (string * pyval))
  : M unit :=
  sel <- _select_by_scene scene ;;
  _mutate_by_ids sel.1 sel.2 kwargs.

(** *** Creation by offset *)

(** What [create_by_offset] prints: the primitive ids for a coordinate
    ([primitive_ids, _ = ...]), the whole pair for the other selectors. *)
Inductive printed : Type :=
  | PrintedIds (ids : list nat)
  | PrintedSelection (sel : selection).

Definition is_not_None {A} (a : option A) : nat :=
  match a with Some _ => 1 | None => 0 end.

(** Once exactly one selector is known to be set, exactly one of the four
    [if ... is not None] blocks runs; the value printed is returned. *)
Definition create_by_offset (offset : vec3) (coordinate : option (list float))
    (name : option string) (timestep scene : option Z)
    (kwargs : list (string * pyval)) : M printed :=
  let exactly_one_set :=
    Nat.eqb (is_not_None coordinate + is_not_None name
             + is_not_None timestep + is_not_None scene) 1 in
  if negb exactly_one_set then raise ValueError
  else
    match coordinate, name, timestep, scene with
    | Some coordinate, None, None, None =>
        sel <- _select_by_coordinate coordinate ;; ret (PrintedIds sel.1)
    | None, Some name, None, None =>
        sel <- _select_by_name name ;; ret (PrintedSelection sel)
    | None, None, Some timestep, None =>
        sel <- _select_by_timestep timestep ;; ret (PrintedSelection sel)
    | None, None, None, Some scene =>
        sel <- _select_by_scene scene ;; ret (PrintedSelection sel)
    | _, _, _, _ => raise ValueError
    end.

(** *** Scenes *)

Definition snapshot : M unit :=
  expected_num_scenes <- gets (fun s => scene_counter s + 1) ;;
  index <- gets cuboid_index ;;
  if negb (SpaceIndex.current_scene_is_valid index expected_num_scenes)
  then raise PyException
  else modify (fun s => set_scene_counter (scene_counter s + 1) s).

(** ** Sample objects *)

Definition point (x z y : float) : vec3 := Vec3 x z y.

(** An axis-aligned box with base vector [(x, z, y)] and side 1, its six
    faces with the base vector as first vertex of the first face. *)
Definition unit_faces (x z y : float) : faces :=
  let x1 := PrimFloat.add x 1%float in
  let z1 := PrimFloat.add z 1%float in
  let y1 := PrimFloat.add y 1%float in
  Faces
    (Quad (point x z y) (point x z y1) (point x1 z y1) (point x1 z y))
    (Quad (point x z y) (point x z1 y) (point x z1 y1) (point x z y1))
    (Quad (point x z y) (point x1 z y) (point x1 z1 y) (point x z1 y))
    (Quad (point x1 z y) (point x1 z1 y) (point x1 z1 y1) (point x1 z y1))
    (Quad (point x z y1) (point x1 z y1) (point x1 z1 y1) (point x z1 y1))
    (Quad (point x z1 y) (point x z1 y1) (point x1 z1 y1) (point x1 z1 y)).

Definition default_visual : list (string * pyval) :=
  [("facecolor", VNone); ("linewidth", VFloat 0x1.999999999999ap-4%float);
   ("edgecolor", VStr "black"); ("alpha", VFloat 0%float)].

Definition unit_cube (x z y : float) (name : option string) : Cube := {|
  cube_faces := unit_faces x z y;
  cube_points := faces_points (unit_faces x z y);
  cube_bounding_box :=
    Dims3 (point x z y)
          (point (PrimFloat.add x 1%float) (PrimFloat.add z 1%float)
                 (PrimFloat.add y 1%float));
  cube_visual_metadata := default_visual;
  cube_name := name
|}.

(** A row of [k] unit cubes along the first axis, starting at [x]. *)
Fixpoint row_faces (k : nat) (x : float) : list faces :=
  match k with
  | O => []
  | S k' => unit_faces x 0%float 0%float :: row_faces k' (PrimFloat.add x 1%float)
  end.

Definition row_composite (k : nat) (x : float) (style : string)
    (name : option string) : CompositeCube := {|
  comp_faces := row_faces k x;
  comp_style := style;
  comp_visual_metadata := default_visual;
  comp_name := name
|}.

(** Running a list of calls from a state, stopping at the first that does
    not return. *)
Fixpoint run (calls : list (M unit)) : M unit :=
  match calls with
  | [] => ret tt
  | c :: cs => c ;; run cs
  end.

(** * Vocabulary of the properties *)

(** The fields an insertion leaves alone until its name is bound. *)
Definition same_bookkeeping (s s' : Space) : Prop :=
  cuboid_names s' = cuboid_names s /\ num_objs s' = num_objs s
  /\ time_step s' = time_step s /\ scene_counter s' = scene_counter s
  /\ changelog s' = changelog s.

(** The name index after [_add_name] has returned. *)
Definition named (name : option string) (ids : object_ids)
    (m : gmap string object_ids) : gmap string object_ids :=
  match name with
  | Some n => <[n := ids]> m
  | None => m
  end.

(** The capacity [add_composite] writes into: the current one when the rows
    fit strictly, else twice what the doubling loop ends on. *)
Definition composite_capacity (current base num_cubes : nat) : option nat :=
  if current <=? base + num_cubes
  then option_map (Nat.mul 2) (double_until num_cubes current num_cubes)
  else Some current.

(** [c] relates every state to the one it leaves, however it ends. *)
Definition preserves (R : Space -> Space -> Prop) {A} (c : M A) : Prop :=
  forall s, R s (fst (c s)).

(** Equal but for the visual metadata. *)
Definition visual_only (s s' : Space) : Prop :=
  s' = set_cuboid_visual_metadata (cuboid_visual_metadata s') s.

(** A selection reads the space and leaves it as it is. *)
Definition read_only {A} (c : M A) : Prop := forall s, fst (c s) = s.

(** A mutation is a selection followed by [_mutate_by_ids]. *)
Definition mutation (select : M selection) (kwargs : list (string * pyval))
  : M unit :=
  bind select (fun sel => _mutate_by_ids sel.1 sel.2 kwargs).

Inductive insertion : Type :=
  | AddCube (cube : Cube)
  | AddCuboid (cuboid : Cuboid)
  | AddComposite (composite : CompositeCube).

Definition insert (op : insertion) : M unit :=
  match op with
  | AddCube cube => add_cube cube
  | AddCuboid cuboid => add_cuboid cuboid
  | AddComposite composite => add_composite composite
  end.

(** The primitive rows of the inserted object. *)
Definition rows_of (op : insertion) : list faces :=
  match op with
  | AddCube c | AddCuboid c => [cube_faces c]
  | AddComposite c => comp_faces c
  end.

Definition name_of (op : insertion) : option string :=
  match op with
  | AddCube c | AddCuboid c => cube_name c
  | AddComposite c => comp_name c
  end.

(** The centroid folded into [total]. *)
Definition centroid_of (op : insertion) : vec3 :=
  match op with
  | AddCube c | AddCuboid c => mean_axis0 (cube_points c)
  | AddComposite c => mean_axis0 (concat (map faces_points (comp_faces c)))
  end.

(** The box [dims] is first widened with. *)
Definition box_of (op : insertion) : dims3 :=
  match op with
  | AddCube c | AddCuboid c => cube_bounding_box c
  | AddComposite c =>
      match comp_faces c with
      | first :: _ => composite_extrema first (List.last (comp_faces c) first)
      | [] => dzero
      end
  end.

(** What the name of the object is bound to, and how the object is
    registered, when it goes in at row [base]. *)
Definition ids_of (op : insertion) (base : nat) : object_ids :=
  match op with
  | AddCube _ | AddCuboid _ => (Some [base], None)
  | AddComposite c => (None, Some [Slice base (base + length (comp_faces c))])
  end.

Definition registered (op : insertion) (s : Space) : SpaceIndex.t :=
  match op with
  | AddCube _ | AddCuboid _ =>
      SpaceIndex.add_primitive_to_index (cuboid_index s)
        (primitive_counter s) (time_step s) (scene_counter s)
  | AddComposite c =>
      SpaceIndex.add_composite_to_index (cuboid_index s)
        (Slice (primitive_counter s)
               (primitive_counter s + length (comp_faces c)))
        (time_step s) (scene_counter s)
  end.

(** The bounds tracker after the insertion of [op] into [s]. *)
Definition bounds_updated (op : insertion) (s s' : Space) : Prop :=
  total s' = vadd (total s) (centroid_of op)
  /\ mean s' = vdiv (total s') (Np.of_count (primitive_counter s + 1))
  /\ exists g, given_extrema (rows_of op) = Some g
       /\ dims s' = widen (surrounding_box (primitive_counter s) (dims s)
                             (box_of op)) g.

Inductive selector : Type :=
  | ByCoordinate (coordinate : list float)
  | ByName (name : string)
  | ByTimestep (timestep : Z)
  | ByScene (scene : Z).

Definition select (sel : selector) : M selection :=
  match sel with
  | ByCoordinate coordinate => _select_by_coordinate coordinate
  | ByName name => _select_by_name name
  | ByTimestep timestep => _select_by_timestep timestep
  | ByScene scene => _select_by_scene scene
  end.

Definition mutate (sel : selector) (kwargs : list (string * pyval)) : M unit :=
  match sel with
  | ByCoordinate coordinate => mutate_by_coordinate coordinate kwargs
  | ByName name => mutate_by_name name kwargs
  | ByTimestep timestep => mutate_by_timestep timestep kwargs
  | ByScene scene => mutate_by_scene scene kwargs
  end.

(** ** Sample spaces *)

Definition cube_a : Cube := unit_cube 0 0 0 (Some "a").
(** Base vector stored as (w, d, h) = (1, 2, 3): the caller's (w, h, d) is
    (1, 3, 2). *)
Definition cube_b : Cube := unit_cube 1 2 3 (Some "b").

(** One cube named "a". *)
Definition space_a : Space := fst (add_cube cube_a init).

(** Cube "a" at the origin, then cube "b" beside it. *)
Definition space_ab : Space := fst (run [add_cube cube_a; add_cube cube_b] init).

(** Nine unnamed cubes: one row of the first ten is left. *)
Definition space_nine : Space :=
  fst (run (repeat (add_cube (unit_cube 0 0 0 None)) 9) init).

Definition twelve : CompositeCube := row_composite 12 0 "default" None.
Definition pair_c : CompositeCube := row_composite 2 0 "default" (Some "c").
Definition triple_c : CompositeCube := row_composite 3 0 "default" (Some "c").

(** The pending scene has recorded activity: a primitive or a composite is
    registered under the current scene counter. *)
Definition scene_activity (s : Space) : Prop :=
  (exists e, In e (SpaceIndex.primitive_buffer (cuboid_index s))
             /\ SpaceIndex.at_scene e = scene_counter s)
  \/ (exists e, In e (SpaceIndex.composite_buffer (cuboid_index s))
                /\ SpaceIndex.at_scene e = scene_counter s).

(** ** The stores after an insertion *)

(** The coordinate array [add_cube] writes into: doubled when full. *)
Definition cube_array (s : Space) : list faces :=
  if length (cuboid_coordinates s) <=? primitive_counter s
  then resize (2 * length (cuboid_coordinates s)) (cuboid_coordinates s)
  else cuboid_coordinates s.

(** The coordinate array [add_composite] writes [num_cubes] rows into;
    [None] when the doubling loop does not end. *)
Definition composite_array (s : Space) (num_cubes : nat) : option (list faces) :=
  if length (cuboid_coordinates s) <=? primitive_counter s + num_cubes
  then option_map (fun n => resize (2 * n) (cuboid_coordinates s))
         (double_until num_cubes (length (cuboid_coordinates s)) num_cubes)
  else Some (cuboid_coordinates s).

(** ** Public calls and the spaces they reach *)

Inductive call : Type :=
  | Insert (op : insertion)
  | Mutate (sel : selector) (kwargs : list (string * pyval))
  | Snapshot
  | CreateByOffset (offset : vec3) (coordinate : option (list float))
      (name : option string) (timestep scene : option Z)
      (kwargs : list (string * pyval)).

Definition perform (c : call) : M unit :=
  match c with
  | Insert op => insert op
  | Mutate sel kwargs => mutate sel kwargs
  | Snapshot => snapshot
  | CreateByOffset offset coordinate name timestep scene kwargs =>
      bind (create_by_offset offset coordinate name timestep scene kwargs)
           (fun _ => ret tt)
  end.

(** The spaces a program can hold: the new space, and the space any public
    call leaves, whether it returned or raised. *)
Inductive reachable : Space -> Prop :=
  | reachable_init : reachable init
  | reachable_step (s : Space) (c : call) :
      reachable s -> reachable (fst (perform c s)).

(** The rows an entry of the name index denotes lie below [bound]. *)
Definition ids_below (bound : nat) (ids : object_ids) : Prop :=
  (forall l i, ids.1 = Some l -> In i l -> i < bound)
  /\ (forall l sl, ids.2 = Some l -> In sl l ->
        start sl < stop sl /\ stop sl <= bound).

Definition well_formed (s : Space) : Prop :=
  10 <= length (cuboid_coordinates s)
  /\ primitive_counter s <= length (cuboid_coordinates s)
  /\ num_objs s = time_step s
  /\ num_objs s <= primitive_counter s
  /\ changelog s = map (fun t => Addition t None) (seq 0 (time_step s))
  /\ forall n ids, cuboid_names s !! n = Some ids ->
       ids_below (primitive_counter s) ids.

(** [c] always returns or raises. *)
Definition returns_or_raises {A} (c : M A) : Prop :=
  forall s, snd (c s) <> Diverge.

(** The name index only gains entries. *)
Definition names_kept (s s' : Space) : Prop :=
  cuboid_names s ⊆ cuboid_names s'.

(** ** Entries a mutation overwrites *)

(** Whether entry [i] of a property's list is selected: a selected
    primitive id, or within a selected composite's range. *)
Definition selectedb (primitive_ids : list nat) (composite_ids : list slice)
    (i : nat) : bool :=
  existsb (Nat.eqb i) primitive_ids
  || existsb (fun c => (start c <=? i) && (i <? stop c)) composite_ids.

(** ** Alignment of the visual metadata with the primitive ids *)

(** The visual properties the inserted object carries. *)
Definition visual_of (op : insertion) : list (string * pyval) :=
  match op with
  | AddCube c | AddCuboid c => cube_visual_metadata c
  | AddComposite c => comp_visual_metadata c
  end.

(** Every property has one value per primitive id. *)
Definition visual_aligned (s : Space) : Prop :=
  forall key l,
    cuboid_visual_metadata s !! key = Some l ->
    length l = primitive_counter s.

(** ** What the walk over the matches holds *)

(** The locals of the walk hold registered objects, and what it has
    gathered are registered objects at matching rows. *)
Definition walk_sound (index : SpaceIndex.t) (matching : list nat)
    (w : walk) : Prop :=
  (forall p, primitive_id w = Some p -> In p (SpaceIndex.primitives index))
  /\ (forall c, composite_slice w = Some c ->
                In c (SpaceIndex.composites index))
  /\ (forall p, In p (primitives_to_update w) ->
                In p matching /\ In p (SpaceIndex.primitives index))
  /\ (forall c, In c (composites_to_update w) ->
                In (start c) matching /\ In c (SpaceIndex.composites index)).

(** A cube named "h" that carries one property more than the others. *)
Definition cube_hatched : Cube := {|
  cube_faces := unit_faces 5 0 0;
  cube_points := faces_points (unit_faces 5 0 0);
  cube_bounding_box := Dims3 (point 5 0 0) (point 6 1 1);
  cube_visual_metadata := default_visual ++ [("hatch", VStr "//")];
  cube_name := Some "h"
|}.

(** ** What a failed insertion has written *)

(** The primitive store and the visual metadata once the rows of [op] are
    in: the rows written at the old counter, into the array resized as the
    insertion resizes it, and each property of the object appended. *)
Definition rows_written (op : insertion) (s s' : Space) : Prop :=
  match op with
  | AddCube c | AddCuboid c =>
      primitive_counter s < length (cube_array s)
      /\ cuboid_coordinates s' =
           <[primitive_counter s := cube_faces c]> (cube_array s)
      /\ cuboid_visual_metadata s' =
           fold_left append_visual (cube_visual_metadata c)
                     (cuboid_visual_metadata s)
  | AddComposite c =>
      exists a,
        composite_array s (length (comp_faces c)) = Some a
        /\ array_setslice a
             (Slice (primitive_counter s)
                    (primitive_counter s + length (comp_faces c)))
             (comp_faces c)
           = Some (cuboid_coordinates s')
        /\ cuboid_visual_metadata s' =
             fold_left (extend_visual (length (comp_faces c)))
                       (comp_visual_metadata c) (cuboid_visual_metadata s)
  end.

(** The bounds tracker of an insertion that raised after its rows went in:
    the centroid is in [total], [mean] is recomputed, [dims] has taken the
    box of the object but not the pass of [_update_bounds]. *)
Definition bounds_begun (op : insertion) (s s' : Space) : Prop :=
  total s' = vadd (total s) (centroid_of op)
  /\ mean s' = vdiv (total s') (Np.of_count (primitive_counter s + 1))
  /\ dims s' = surrounding_box (primitive_counter s) (dims s) (box_of op).

(** ** Comparing float64 arrays *)

(** Some component is NaN: [==] on the array is then false, also against
    itself. *)
Definition has_nan (v : vec3) : bool :=
  Np.isnan (c0 v) || Np.isnan (c1 v) || Np.isnan (c2 v).

(** A composite in the style the code does not implement. *)
Definition triple_classic : CompositeCube := row_composite 3 0 "classic" None.

(** * Properties *)

(** ** Running the monad *)

Ltac simpl_space :=
  cbn [dims mean total num_objs primitive_counter time_step scene_counter
       cuboid_coordinates cuboid_visual_metadata cuboid_index cuboid_names
       changelog set_dims set_mean set_total set_num_objs
       set_primitive_counter set_time_step set_scene_counter
       set_cuboid_coordinates set_cuboid_visual_metadata set_cuboid_index
       set_cuboid_names set_changelog fst snd] in *.

Ltac run_monad :=
  cbv [bind modify gets ret raise diverge store_row store_rows
       record_addition] in *;
  simpl_space.

Ltac case_if :=
  match goal with
  | |- context [if ?b then _ else _] => destruct b eqn:?
  | H : context [if ?b then _ else _] |- _ => destruct b eqn:?
  end.

Ltac inv_pair :=
  repeat match goal with
  | H : (_, _) = (_, _) |- _ => inversion H; clear H; subst
  end.

(** What [_add_cuboid_primitive] leaves behind, whether it returns the new
    id or raises on the row write. *)
Lemma _add_cuboid_primitive_inv (c : Cube) (s s' : Space) (r : result nat) :
  _add_cuboid_primitive c s = (s', r) ->
  same_bookkeeping s s'
  /\ total s' = vadd (total s) (mean_axis0 (cube_points c))
  /\ mean s' = vdiv (total s') (Np.of_count (primitive_counter s + 1))
  /\ dims s' = surrounding_box (primitive_counter s) (dims s)
                 (cube_bounding_box c)
  /\ match r with
     | Ok pid =>
         pid = primitive_counter s
         /\ primitive_counter s' = primitive_counter s + 1
         /\ cuboid_index s' =
              SpaceIndex.add_primitive_to_index (cuboid_index s)
                (primitive_counter s) (time_step s) (scene_counter s)
         /\ pid < length (cuboid_coordinates s')
         /\ cuboid_coordinates s' !! pid = Some (cube_faces c)
     | Raise e => e = IndexError /\ primitive_counter s' = primitive_counter s
     | Diverge => False
     end.
Proof.
  unfold _add_cuboid_primitive, same_bookkeeping. run_monad.
  repeat case_if; simpl_space; intros H; inv_pair; simpl_space;
    repeat split; auto.
  - rewrite length_insert. now apply Nat.ltb_lt.
  - apply list_lookup_insert_eq. now apply Nat.ltb_lt.
  - rewrite length_insert. now apply Nat.ltb_lt.
  - apply list_lookup_insert_eq. now apply Nat.ltb_lt.
Qed.

Lemma bind_inv {A B} (c : M A) (k : A -> M B) (s s' : Space) (r : result B) :
  bind c k s = (s', r) ->
  (exists s1 a, c s = (s1, Ok a) /\ k a s1 = (s', r))
  \/ (exists e, c s = (s', Raise e) /\ r = Raise e)
  \/ (c s = (s', Diverge) /\ r = Diverge).
Proof.
  unfold bind. destruct (c s) as [s1 [a | e |]]; intros H.
  - left. eauto.
  - right. left. inv_pair. eauto.
  - right. right. inv_pair. eauto.
Qed.

Lemma _add_name_inv (name : option string) (ids : object_ids)
    (s s' : Space) (r : result unit) :
  _add_name name ids s = (s', r) ->
  match r with
  | Ok _ =>
      match name with
      | Some n =>
          cuboid_names s !! n = None
          /\ s' = set_cuboid_names (<[n := ids]> (cuboid_names s)) s
      | None => s' = s
      end
  | Raise e =>
      e = PyException /\ s' = s
      /\ exists n, name = Some n
           /\ (is_Some (cuboid_names s !! n) \/ ids = (None, None))
  | Diverge => False
  end.
Proof.
  unfold _add_name. destruct name as [n |]; run_monad.
  - destruct (cuboid_names s !! n) eqn:E.
    + intros H; inv_pair. repeat split; eauto.
    + destruct ids as [[p |] [c |]]; intros H; inv_pair; eauto 8.
  - intros H; inv_pair. reflexivity.
Qed.

Lemma _update_bounds_inv (ids : slice) (s s' : Space) (r : result unit) :
  _update_bounds ids s = (s', r) ->
  match r with
  | Ok _ =>
      exists given,
        given_extrema (getslice (cuboid_coordinates s) ids) = Some given
        /\ length (getslice (cuboid_coordinates s) ids) = stop ids - start ids
        /\ s' = set_dims (widen (dims s) given) s
  | Raise e =>
      e = ValueError /\ s' = s
      /\ (length (getslice (cuboid_coordinates s) ids) <> stop ids - start ids
          \/ given_extrema (getslice (cuboid_coordinates s) ids) = None)
  | Diverge => False
  end.
Proof.
  unfold _update_bounds.
  destruct (Nat.eqb_spec (length (getslice (cuboid_coordinates s) ids))
                         (stop ids - start ids)) as [E | E]; cbn [negb].
  - destruct (given_extrema _) eqn:G; intros H; inv_pair; eauto.
  - intros H; inv_pair. auto.
Qed.

Lemma record_addition_eq (s : Space) :
  record_addition s =
  (set_time_step (time_step s + 1)
     (set_changelog (changelog s ++ [Addition (time_step s) None])
        (set_num_objs (num_objs s + 1) s)), Ok tt).
Proof. reflexivity. Qed.

(** Reading back one stored row. *)
Lemma getslice_row {A} (l : list A) (i : nat) (x : A) :
  l !! i = Some x -> getslice l (Slice i (i + 1)) = [x].
Proof.
  intros H. unfold getslice. cbn [start stop].
  replace (i + 1 - i) with 1 by lia.
  rewrite (drop_S l x i H). reflexivity.
Qed.

Lemma given_extrema_cons (f : faces) (rows : list faces) :
  exists g, given_extrema (f :: rows) = Some g.
Proof.
  unfold given_extrema. cbn [map concat faces_points quad_points app reduce_axis0].
  eauto.
Qed.

Lemma given_extrema_row (f : faces) : exists g, given_extrema [f] = Some g.
Proof. apply given_extrema_cons. Qed.

Lemma _update_bounds_row (s : Space) (i : nat) (f : faces) :
  cuboid_coordinates s !! i = Some f ->
  exists g, given_extrema [f] = Some g
    /\ _update_bounds (Slice i (i + 1)) s
       = (set_dims (widen (dims s) g) s, Ok tt).
Proof.
  intros H. destruct (given_extrema_row f) as [g Hg]. exists g. split; [exact Hg |].
  unfold _update_bounds. rewrite (getslice_row _ _ _ H). cbn [start stop length].
  replace (i + 1 - i) with 1 by lia. cbn [Nat.eqb negb]. now rewrite Hg.
Qed.

(** Everything [add_cube] can do. *)
Lemma add_cube_inv (c : Cube) (s s' : Space) (r : result unit) :
  add_cube c s = (s', r) ->
  total s' = vadd (total s) (mean_axis0 (cube_points c))
  /\ mean s' = vdiv (total s') (Np.of_count (primitive_counter s + 1))
  /\ scene_counter s' = scene_counter s
  /\ match r with
     | Ok _ =>
         num_objs s' = num_objs s + 1
         /\ primitive_counter s' = primitive_counter s + 1
         /\ time_step s' = time_step s + 1
         /\ changelog s' = changelog s ++ [Addition (time_step s) None]
         /\ cuboid_index s' =
              SpaceIndex.add_primitive_to_index (cuboid_index s)
                (primitive_counter s) (time_step s) (scene_counter s)
         /\ cuboid_names s' =
              named (cube_name c) (Some [primitive_counter s], None)
                    (cuboid_names s)
         /\ exists g, given_extrema [cube_faces c] = Some g
              /\ dims s' =
                   widen (surrounding_box (primitive_counter s) (dims s)
                            (cube_bounding_box c)) g
     | Raise e =>
         same_bookkeeping s s'
         /\ ((e = PyException
              /\ primitive_counter s' = primitive_counter s + 1
              /\ exists n, cube_name c = Some n
                   /\ is_Some (cuboid_names s !! n))
             \/ (e = IndexError
                 /\ primitive_counter s' = primitive_counter s))
     | Diverge => False
     end.
Proof.
  unfold add_cube. intros H.
  apply bind_inv in H as [(s1 & pid & H1 & H) | [(e & H1 & ->) | [H1 ->]]];
    apply _add_cuboid_primitive_inv in H1
      as (Hbk & Htot & Hmean & Hdims & H1); try (destruct H1; fail).
  2: { destruct H1 as [-> Hpc].
       split; [exact Htot |]. split; [exact Hmean |].
       split; [apply Hbk |]. split; [exact Hbk |]. right. auto. }
  destruct H1 as (-> & Hpc & Hidx & Hlt & Hrow).
  pose proof Hbk as (Hn & Ho & Ht & Hs & Hc).
  apply bind_inv in H as [(s2 & [] & H2 & H) | [(e & H2 & ->) | [H2 ->]]];
    apply _add_name_inv in H2; try (destruct H2; fail).
  2: { destruct H2 as (-> & -> & n & Hname & [Hsome | Hnone]);
         [| discriminate].
       split; [exact Htot |]. split; [exact Hmean |].
       split; [exact Hs |]. split; [exact Hbk |]. left.
       split; [reflexivity |]. split; [exact Hpc |].
       exists n. split; auto. now rewrite <- Hn. }
  assert (Hs2 : s2 = set_cuboid_names
                       (named (cube_name c) (Some [primitive_counter s], None)
                              (cuboid_names s1)) s1).
  { destruct (cube_name c); cbn [named].
    - destruct H2 as [_ ->]. reflexivity.
    - subst s2. destruct s1; reflexivity. }
  clear H2.
  apply bind_inv in H as [(s3 & [] & H3 & H) | [(e & H3 & ->) | [H3 ->]]];
    rewrite record_addition_eq in H3; inv_pair.
  match type of H with
  | _update_bounds _ ?st = _ =>
      destruct (_update_bounds_row st (primitive_counter s) (cube_faces c))
        as (g & Hg & Hub); [simpl_space; exact Hrow |]
  end.
  rewrite Hub in H. inv_pair. simpl_space.
  rewrite Htot, Hmean, Htot, Hs, Ho, Hpc, Ht, Hc, Hidx, Hn, Hdims.
  repeat split; auto. exists g. auto.
Qed.

(** ** The coordinate array under a bulk write *)

Lemma length_resize (n : nat) (a : list faces) : length (resize n a) = n.
Proof.
  unfold resize. rewrite length_app, length_take, repeat_length. lia.
Qed.

Lemma array_setslice_fits (a rows : list faces) (base : nat) :
  base + length rows <= length a ->
  array_setslice a (Slice base (base + length rows)) rows
  = Some (take base a ++ rows ++ drop (base + length rows) a).
Proof.
  intros H. unfold array_setslice. cbn [start stop].
  rewrite (Nat.min_l base) by lia.
  rewrite (Nat.min_l (base + length rows)) by lia.
  rewrite Nat.max_r by lia.
  replace (base + length rows - base) with (length rows) by lia.
  now rewrite Nat.eqb_refl.
Qed.

Lemma array_setslice_None (a rows : list faces) (base : nat) :
  array_setslice a (Slice base (base + length rows)) rows = None ->
  length a < base + length rows.
Proof.
  intros H. destruct (Nat.le_gt_cases (base + length rows) (length a)) as [L | L];
    [| exact L].
  rewrite (array_setslice_fits _ _ _ L) in H. discriminate.
Qed.

(** A write that went through either had room for all its rows, or was a
    single row broadcast over an empty target. *)
Lemma array_setslice_Some (a rows a' : list faces) (base : nat) :
  rows <> [] ->
  array_setslice a (Slice base (base + length rows)) rows = Some a' ->
  (base + length rows <= length a
   /\ a' = take base a ++ rows ++ drop (base + length rows) a)
  \/ (length a <= base /\ length rows = 1 /\ a' = a).
Proof.
  intros Hne H.
  destruct (Nat.le_gt_cases (base + length rows) (length a)) as [L | L].
  - left. rewrite (array_setslice_fits _ _ _ L) in H. inversion H. auto.
  - right. unfold array_setslice in H. cbn [start stop] in H.
    destruct (Nat.eqb_spec (length rows)
                (Nat.max (Nat.min base (length a))
                   (Nat.min (base + length rows) (length a))
                 - Nat.min base (length a))) as [E | E].
    + destruct rows; [congruence | cbn [length] in *; lia].
    + destruct rows as [| r [| r' rows]]; [congruence | | discriminate].
      cbn [length] in *.
      assert (Hb : length a <= base) by lia.
      split; [exact Hb |]. split; [reflexivity |].
      rewrite (Nat.min_r base) in H by lia.
      rewrite (Nat.min_r (base + 1)) in H by lia.
      rewrite Nat.max_id, Nat.sub_diag in H. cbn [repeat app] in H.
      rewrite firstn_all, skipn_all in H. rewrite app_nil_r in H.
      now inversion H.
Qed.

Lemma getslice_stored (a rows : list faces) (base : nat) :
  base <= length a ->
  getslice (take base a ++ rows ++ drop (base + length rows) a)
           (Slice base (base + length rows)) = rows.
Proof.
  intros H. unfold getslice. cbn [start stop].
  replace (base + length rows - base) with (length rows) by lia.
  rewrite drop_app_length' by (rewrite length_take; lia).
  now rewrite take_app_length.
Qed.

(** The doubling loop ends for a non-empty array, on a size whose double
    holds the composite alone. *)
Lemma double_until_Some (fuel current k n : nat) :
  double_until fuel current k = Some n -> current <= n /\ k <= 2 * n.
Proof.
  revert current. induction fuel as [| fuel IH]; intros current; cbn [double_until];
    destruct (Nat.ltb_spec (2 * current) k) as [L | L]; intros H;
    try discriminate; try (inversion H; subst; lia).
  apply IH in H. lia.
Qed.

Lemma double_until_fuel (fuel current k : nat) :
  k <= 2 * current * 2 ^ fuel ->
  exists n, double_until fuel current k = Some n.
Proof.
  revert current. induction fuel as [| fuel IH]; intros current H;
    cbn [double_until]; destruct (Nat.ltb_spec (2 * current) k) as [L | L];
    eauto.
  - cbn in H. lia.
  - apply IH. rewrite Nat.pow_succ_r' in H. lia.
Qed.

Lemma double_until_terminates (current k : nat) :
  0 < current -> exists n, double_until k current k = Some n.
Proof.
  intros H. apply double_until_fuel.
  assert (k < 2 ^ k) by (apply Nat.pow_gt_lin_r; lia). nia.
Qed.

(** Everything [add_composite] can do. *)
Lemma add_composite_inv (c : CompositeCube) (s s' : Space) (r : result unit) :
  add_composite c s = (s', r) ->
  let k := length (comp_faces c) in
  let ids := Slice (primitive_counter s) (primitive_counter s + k) in
  total s' = vadd (total s)
               (mean_axis0 (concat (map faces_points (comp_faces c))))
  /\ mean s' = vdiv (total s') (Np.of_count (primitive_counter s + 1))
  /\ scene_counter s' = scene_counter s
  /\ match r with
     | Ok _ =>
         comp_style c <> "classic"
         /\ num_objs s' = num_objs s + 1
         /\ primitive_counter s' = primitive_counter s + k
         /\ time_step s' = time_step s + 1
         /\ changelog s' = changelog s ++ [Addition (time_step s) None]
         /\ cuboid_index s' =
              SpaceIndex.add_composite_to_index (cuboid_index s) ids
                (time_step s) (scene_counter s)
         /\ cuboid_names s' =
              named (comp_name c) (None, Some [ids]) (cuboid_names s)
         /\ composite_capacity (length (cuboid_coordinates s))
              (primitive_counter s) k
            = Some (length (cuboid_coordinates s'))
         /\ primitive_counter s + k <= length (cuboid_coordinates s')
         /\ exists first g,
              head (comp_faces c) = Some first
              /\ given_extrema (comp_faces c) = Some g
              /\ dims s' =
                   widen (surrounding_box (primitive_counter s) (dims s)
                            (composite_extrema first
                               (List.last (comp_faces c) first))) g
     | Raise e =>
         (e = IndexError /\ comp_faces c = []
          /\ same_bookkeeping s s'
          /\ primitive_counter s' = primitive_counter s)
         \/ (e = ValueError
             /\ same_bookkeeping s s'
             /\ primitive_counter s' = primitive_counter s
             /\ exists cap,
                  composite_capacity (length (cuboid_coordinates s))
                    (primitive_counter s) k = Some cap
                  /\ cap < primitive_counter s + k)
         \/ (e = NotImplementedError /\ comp_style c = "classic"
             /\ same_bookkeeping s s'
             /\ primitive_counter s' = primitive_counter s + k)
         \/ (e = PyException /\ comp_style c <> "classic"
             /\ same_bookkeeping s s'
             /\ primitive_counter s' = primitive_counter s + k
             /\ exists n, comp_name c = Some n
                  /\ is_Some (cuboid_names s !! n))
         \/ (e = ValueError /\ comp_style c <> "classic"
             /\ length (cuboid_coordinates s') <= primitive_counter s)
     | Diverge => length (cuboid_coordinates s) = 0
     end.
Proof.
  unfold add_composite. destruct (comp_faces c) as [| first rest] eqn:Hf.
  { run_monad. intros H; inv_pair. simpl_space.
    repeat (split; [reflexivity |]). left. repeat split; reflexivity. }
  rewrite <- Hf. run_monad.
  set (k := length (comp_faces c)).
  assert (Hk : 0 < k) by (subst k; rewrite Hf; cbn [length]; lia).
  match goal with
  | |- context [let (_, _) := ?g ?x in _] =>
      set (st := x); destruct (g st) as [s0 r0] eqn:Hgrow
  end.
  assert (Hg : match r0 with
               | Ok _ =>
                   exists a, s0 = set_cuboid_coordinates a st
                     /\ composite_capacity (length (cuboid_coordinates s))
                          (primitive_counter s) k = Some (length a)
               | Raise _ => False
               | Diverge => s0 = st /\ length (cuboid_coordinates s) = 0
               end).
  { unfold composite_capacity.
    destruct (length (cuboid_coordinates s) <=? primitive_counter s + k).
    - destruct (double_until k (length (cuboid_coordinates s)) k)
        as [n |] eqn:Hd; inv_pair.
      + eexists. split; [reflexivity |]. cbn [option_map].
        now rewrite length_resize.
      + split; [reflexivity |].
        destruct (length (cuboid_coordinates s)) as [| m] eqn:E;
          [reflexivity |].
        destruct (double_until_terminates (S m) k) as [n Hn]; [lia |].
        congruence.
    - inv_pair. exists (cuboid_coordinates s). split; [| reflexivity].
      subst st. reflexivity. }
  clear Hgrow. destruct r0 as [[] | e |]; [| destruct Hg |].
  2: { destruct Hg as [-> Hz]. intros H; inv_pair. subst st. simpl_space.
       repeat (split; [reflexivity |]). exact Hz. }
  destruct Hg as (a & -> & Hcap). simpl_space.
  destruct (array_setslice a _ (comp_faces c)) as [a' |] eqn:Hw.
  2: { intros H; inv_pair. subst st. simpl_space.
       repeat (split; [reflexivity |]). right. left.
       split; [reflexivity |]. split; [repeat split |].
       split; [reflexivity |]. exists (length a). split; [exact Hcap |].
       now apply array_setslice_None in Hw. }
  simpl_space.
  destruct (String.eqb_spec (comp_style c) "classic") as [Hst | Hst].
  { intros H; inv_pair. subst st. simpl_space.
    repeat (split; [reflexivity |]). right. right. left.
    repeat split; auto. }
  match goal with
  | |- context [_add_name ?n ?i ?x] =>
      set (s2 := x); destruct (_add_name n i s2) as [s3 r3] eqn:Hname
  end.
  apply _add_name_inv in Hname.
  destruct r3 as [[] | e |]; [| | destruct Hname].
  2: { destruct Hname as (-> & -> & n & Hn & [Hsome | Hnone]);
         [| discriminate].
       intros H; inv_pair. subst s2 st. simpl_space.
       repeat (split; [reflexivity |]). right. right. right. left.
       repeat split; auto. exists n. auto. }
  assert (Hs3 : s3 = set_cuboid_names
                       (named (comp_name c)
                          (None, Some [Slice (primitive_counter s)
                                             (primitive_counter s + k)])
                          (cuboid_names s2)) s2).
  { destruct (comp_name c); cbn [named].
    - destruct Hname as [_ ->]. reflexivity.
    - subst s3 s2. reflexivity. }
  clear Hname. subst s3 s2 st. simpl_space.
  match goal with
  | |- context [_update_bounds ?i ?x] =>
      destruct (_update_bounds i x) as [s4 r4] eqn:Hub
  end.
  apply _update_bounds_inv in Hub. simpl_space.
  assert (Hrows : comp_faces c <> []) by (rewrite Hf; discriminate).
  apply (array_setslice_Some _ _ _ _ Hrows) in Hw.
  intros H; inv_pair.
  destruct r as [[] | e |]; [| | destruct Hub].
  - destruct Hub as (g & Hg & Hlen & ->). simpl_space. cbn [start stop] in Hlen.
    destruct Hw as [[Hfit ->] | (Hshort & _ & ->)].
    2: { unfold getslice in Hlen. cbn [start stop] in Hlen.
         rewrite skipn_all2 in Hlen by exact Hshort.
         rewrite firstn_nil in Hlen. cbn [length] in Hlen. fold k in Hlen. lia. }
    rewrite getslice_stored in Hg by lia.
    repeat (split; [reflexivity |]).
    split; [exact Hst |]. repeat (split; [reflexivity |]).
    split.
    { rewrite !length_app, length_take, length_drop. fold k.
      rewrite Nat.min_l by lia.
      replace (primitive_counter s + (k + (length a - (primitive_counter s + k))))
        with (length a) by lia.
      exact Hcap. }
    split.
    { rewrite !length_app, length_take, length_drop. fold k. lia. }
    exists first, g. split; [now rewrite Hf |]. split; [exact Hg | reflexivity].
  - destruct Hub as (-> & -> & Hbad). simpl_space.
    repeat (split; [reflexivity |]). right. right. right. right.
    split; [reflexivity |]. split; [exact Hst |].
    destruct Hw as [[Hfit ->] | (Hshort & _ & ->)]; [| exact Hshort].
    exfalso. simpl_space. rewrite getslice_stored in Hbad by lia.
    cbn [start stop] in Hbad. destruct Hbad as [Hbad | Hbad]; [lia |].
    rewrite Hf in Hbad.
    destruct (given_extrema_cons first rest) as [g Hg]. congruence.
Qed.

(** ** What a computation leaves alone *)

Section Preservation.

Variable R : Space -> Space -> Prop.
Hypothesis R_refl : forall s, R s s.
Hypothesis R_trans : forall s1 s2 s3, R s1 s2 -> R s2 s3 -> R s1 s3.

Lemma preserves_ret {A} (a : A) : preserves R (ret a).
Proof. intros s. apply R_refl. Qed.

Lemma preserves_raise {A} (e : exn) : preserves R (@raise A e).
Proof. intros s. apply R_refl. Qed.

Lemma preserves_gets {A} (f : Space -> A) : preserves R (gets f).
Proof. intros s. apply R_refl. Qed.

Lemma preserves_bind {A B} (c : M A) (k : A -> M B) :
  preserves R c -> (forall a, preserves R (k a)) -> preserves R (bind c k).
Proof.
  intros Hc Hk s. unfold bind. specialize (Hc s).
  destruct (c s) as [s1 [a | e |]]; cbn [fst] in *; auto.
  eapply R_trans; [exact Hc | apply Hk].
Qed.

Lemma preserves_for_each {A} (l : list A) (body : A -> M unit) :
  (forall x, preserves R (body x)) -> preserves R (for_each l body).
Proof.
  intros Hb. induction l as [| x l IH]; cbn [for_each].
  - apply preserves_ret.
  - apply preserves_bind; auto.
Qed.

End Preservation.

Lemma visual_only_refl (s : Space) : visual_only s s.
Proof. unfold visual_only. destruct s; reflexivity. Qed.

Lemma visual_only_trans (s1 s2 s3 : Space) :
  visual_only s1 s2 -> visual_only s2 s3 -> visual_only s1 s3.
Proof. unfold visual_only. intros H12 H23. rewrite H23, H12. reflexivity. Qed.

Lemma visual_setitem_visual_only key i v :
  preserves visual_only (visual_setitem key i v).
Proof.
  intros s. unfold visual_setitem.
  destruct (cuboid_visual_metadata s !! key); [case_if |]; cbn [fst];
    try apply visual_only_refl.
  reflexivity.
Qed.

Lemma visual_setslice_visual_only key sl v :
  preserves visual_only (visual_setslice key sl v).
Proof.
  intros s. unfold visual_setslice.
  destruct (cuboid_visual_metadata s !! key); cbn [fst];
    [reflexivity | apply visual_only_refl].
Qed.

Lemma _mutate_by_ids_visual_only ps cs kwargs :
  preserves visual_only (_mutate_by_ids ps cs kwargs).
Proof.
  unfold _mutate_by_ids.
  apply (preserves_for_each _ visual_only_refl visual_only_trans).
  intros kv. unfold mutate_key.
  apply (preserves_bind _ visual_only_trans).
  - apply preserves_gets, visual_only_refl.
  - intros [l |]; [| apply preserves_raise, visual_only_refl].
    apply (preserves_bind _ visual_only_trans); intros;
      apply (preserves_for_each _ visual_only_refl visual_only_trans);
      auto using visual_setitem_visual_only, visual_setslice_visual_only.
Qed.

Lemma _select_by_coordinate_read_only coordinate :
  read_only (_select_by_coordinate coordinate).
Proof.
  intros s. unfold _select_by_coordinate.
  destruct coordinate as [| w [| h [| d [| ? ?]]]]; try reflexivity.
  destruct (matching_base_vectors _ _ _); reflexivity.
Qed.

Lemma _select_by_name_read_only name : read_only (_select_by_name name).
Proof.
  intros s. unfold _select_by_name.
  destruct (cuboid_names s !! name) as [[? ?] |]; reflexivity.
Qed.

Lemma _select_by_timestep_read_only t : read_only (_select_by_timestep t).
Proof. intros s. unfold _select_by_timestep. case_if; reflexivity. Qed.

Lemma _select_by_scene_read_only t : read_only (_select_by_scene t).
Proof. intros s. unfold _select_by_scene. case_if; reflexivity. Qed.

Lemma mutation_visual_only select kwargs :
  read_only select -> preserves visual_only (mutation select kwargs).
Proof.
  intros Hsel. unfold mutation.
  apply (preserves_bind _ visual_only_trans).
  - intros s. rewrite Hsel. apply visual_only_refl.
  - intros a. apply _mutate_by_ids_visual_only.
Qed.

(** A failed selection, or an unknown first property, ends the mutation
    before anything is written. *)
Lemma mutation_unknown_first select key value kwargs s :
  read_only select ->
  cuboid_visual_metadata s !! key = None ->
  exists e, mutation select ((key, value) :: kwargs) s = (s, Raise e)
            \/ mutation select ((key, value) :: kwargs) s = (s, Diverge).
Proof.
  intros Hsel Hkey. unfold mutation, bind. specialize (Hsel s).
  destruct (select s) as [s1 [sel | e |]]; cbn [fst] in Hsel; subst s1.
  - exists KeyError. left. unfold _mutate_by_ids. cbn [for_each].
    unfold mutate_key, bind, gets. cbn [fst]. now rewrite Hkey.
  - exists e. now left.
  - exists KeyError. now right.
Qed.

Lemma mutation_select_fails select kwargs s s' e :
  read_only select -> select s = (s', Raise e) ->
  mutation select kwargs s = (s, Raise e).
Proof.
  intros Hsel H. unfold mutation, bind. specialize (Hsel s).
  rewrite H in *. cbn [fst] in Hsel. now subst.
Qed.

(** ** The public calls, taken together *)

Lemma insert_ok (op : insertion) (s s' : Space) :
  insert op s = (s', Ok tt) ->
  bounds_updated op s s'
  /\ scene_counter s' = scene_counter s
  /\ num_objs s' = num_objs s + 1
  /\ primitive_counter s' = primitive_counter s + length (rows_of op)
  /\ time_step s' = time_step s + 1
  /\ changelog s' = changelog s ++ [Addition (time_step s) None]
  /\ cuboid_index s' = registered op s
  /\ cuboid_names s' =
       named (name_of op) (ids_of op (primitive_counter s)) (cuboid_names s).
Proof.
  unfold bounds_updated.
  destruct op as [c | c | c]; cbn [insert rows_of name_of centroid_of box_of
                                   ids_of registered length]; intros H.
  - apply add_cube_inv in H. tauto.
  - apply add_cube_inv in H. tauto.
  - apply add_composite_inv in H. cbv zeta in H.
    destruct H as (Ht & Hm & Hs & _ & Hn & Hp & Hts & Hc & Hi & Hnm & _ & _
                   & first & g & Hhd & Hg & Hd).
    destruct (comp_faces c) as [| f rest] eqn:Hf; [discriminate |].
    cbn [head] in Hhd. inversion Hhd; subst f.
    repeat split; auto. exists g. auto.
Qed.

(** An insertion that raised on its name or on its style: the bookkeeping
    is as before, the rows are in. *)
Lemma insert_raise (op : insertion) (s s' : Space) (e : exn) :
  insert op s = (s', Raise e) ->
  e = PyException \/ e = NotImplementedError ->
  same_bookkeeping s s'
  /\ primitive_counter s' = primitive_counter s + length (rows_of op).
Proof.
  destruct op as [c | c | c]; cbn [insert rows_of length]; intros H He.
  - apply add_cube_inv in H as (_ & _ & _ & Hbk & [(_ & Hp & _) | [-> _]]);
      [auto | destruct He; discriminate].
  - apply add_cube_inv in H as (_ & _ & _ & Hbk & [(_ & Hp & _) | [-> _]]);
      [auto | destruct He; discriminate].
  - apply add_composite_inv in H. cbv zeta in H.
    destruct H as (_ & _ & _
      & [(-> & _) | [(-> & _) | [(_ & _ & Hbk & Hp)
      | [(_ & _ & Hbk & Hp & _) | (-> & _)]]]]);
      try (destruct He; discriminate); auto.
Qed.

Lemma mutate_mutation sel kwargs :
  mutate sel kwargs = mutation (select sel) kwargs.
Proof. destruct sel; reflexivity. Qed.

Lemma select_read_only sel : read_only (select sel).
Proof.
  destruct sel; cbn [select];
    auto using _select_by_coordinate_read_only, _select_by_name_read_only,
      _select_by_timestep_read_only, _select_by_scene_read_only.
Qed.

Lemma snapshot_inv (s : Space) :
  snapshot s =
  if SpaceIndex.current_scene_is_valid (cuboid_index s) (scene_counter s + 1)
  then (set_scene_counter (scene_counter s + 1) s, Ok tt)
  else (s, Raise PyException).
Proof.
  unfold snapshot. run_monad.
  destruct (SpaceIndex.current_scene_is_valid _ _); reflexivity.
Qed.

(** ** The mean under insertion *)

(** [==] of an array with itself fails exactly on a NaN. *)
Lemma array_equal_self (v : vec3) : array_equal v v = negb (has_nan v).
Proof.
  unfold array_equal, has_nan, Np.isnan.
  destruct (PrimFloat.eqb (c0 v) (c0 v)), (PrimFloat.eqb (c1 v) (c1 v)),
    (PrimFloat.eqb (c2 v) (c2 v)); reflexivity.
Qed.

(** C4, against the claim as stated: a composite of two rows goes into the
    empty space, the call returns, and [mean] is not [total /
    primitive_counter]. *)
Lemma composite_mean_not_total_over_rows :
  snd (add_composite pair_c init) = Ok tt
  /\ primitive_counter (fst (add_composite pair_c init)) = 2
  /\ array_equal (mean (fst (add_composite pair_c init)))
       (vdiv (total (fst (add_composite pair_c init)))
             (Np.of_count (primitive_counter (fst (add_composite pair_c init)))))
     = false.
Proof. vm_compute. repeat split; reflexivity. Qed.

(** C4, amended: after an insertion that returns, [mean] holds the float64
    result of [total] over the row count before the call plus one, so that
    [mean == total / (primitive_counter before + 1)] holds exactly when no
    component of [mean] is NaN.  The divisor is [primitive_counter] after
    an insertion of a single row: [add_cube], [add_cuboid], and
    [add_composite] with [k = 1]. *)
Theorem mean_after_insertion (op : insertion) (s s' : Space) :
  insert op s = (s', Ok tt) ->
  (mean s' = vdiv (total s') (Np.of_count (primitive_counter s + 1))
   /\ array_equal (mean s')
        (vdiv (total s') (Np.of_count (primitive_counter s + 1)))
      = negb (has_nan (mean s')))
  /\ (length (rows_of op) = 1 ->
      mean s' = vdiv (total s') (Np.of_count (primitive_counter s'))
      /\ array_equal (mean s')
           (vdiv (total s') (Np.of_count (primitive_counter s')))
         = negb (has_nan (mean s'))).
Proof.
  intros H. apply insert_ok in H.
  destruct H as ((_ & Hm & _) & _ & _ & Hp & _).
  assert (Heq : array_equal (mean s')
                  (vdiv (total s') (Np.of_count (primitive_counter s + 1)))
                = negb (has_nan (mean s'))).
  { rewrite <- Hm. apply array_equal_self. }
  split; [split; [exact Hm | exact Heq] |].
  intros H1. rewrite Hp, H1. split; [exact Hm | exact Heq].
Qed.

Lemma mean_after_insertion_witness :
  has_nan (mean (fst (insert (AddCube cube_b) space_a))) = false
  /\ array_equal (mean (fst (insert (AddCube cube_b) space_a)))
       (vdiv (total (fst (insert (AddCube cube_b) space_a)))
             (Np.of_count
                (primitive_counter (fst (insert (AddCube cube_b) space_a)))))
     = true.
Proof.
  split; [vm_compute; reflexivity |].
  destruct (mean_after_insertion (AddCube cube_b) space_a
              (fst (insert (AddCube cube_b) space_a))) as [_ Hone].
  - vm_compute. reflexivity.
  - destruct Hone as [_ Heq]; [reflexivity |].
    rewrite Heq. vm_compute. reflexivity.
Defined.

(** ** Bounds and change log *)

(** C3, against the claim as stated: a mutation by name and a snapshot both
    return, and neither has appended to the change log. *)
Lemma mutation_and_snapshot_log_nothing :
  snd (mutate_by_name "a" [("alpha", VFloat 1)] space_a) = Ok tt
  /\ changelog (fst (mutate_by_name "a" [("alpha", VFloat 1)] space_a))
     = changelog space_a
  /\ snd (snapshot space_a) = Ok tt
  /\ changelog (fst (snapshot space_a)) = changelog space_a.
Proof. vm_compute. repeat split; reflexivity. Qed.

(** C3, amended: an [add_cube], [add_cuboid] or [add_composite] call that
    returns has updated the bounds tracker (the centroid added to [total],
    [mean] recomputed, [dims] widened over the inserted rows) and appended
    one entry to the change log; a [mutate_by_*] call leaves [dims], [mean]
    and [total] as they were; [snapshot] leaves [dims], [mean], [total] and
    the change log as they were. *)
Theorem insertion_updates_bounds_and_log (s : Space) :
  (forall op s', insert op s = (s', Ok tt) ->
     bounds_updated op s s'
     /\ changelog s' = changelog s ++ [Addition (time_step s) None])
  /\ (forall sel kwargs,
        dims (fst (mutate sel kwargs s)) = dims s
        /\ mean (fst (mutate sel kwargs s)) = mean s
        /\ total (fst (mutate sel kwargs s)) = total s)
  /\ dims (fst (snapshot s)) = dims s
  /\ mean (fst (snapshot s)) = mean s
  /\ total (fst (snapshot s)) = total s
  /\ changelog (fst (snapshot s)) = changelog s.
Proof.
  split; [| split].
  - intros op s' H. apply insert_ok in H. tauto.
  - intros sel kwargs. rewrite mutate_mutation.
    pose proof (mutation_visual_only (select sel) kwargs
                  (select_read_only sel) s) as H.
    unfold visual_only in H. rewrite H. repeat split; reflexivity.
  - rewrite snapshot_inv. case_if; repeat split; reflexivity.
Qed.

Lemma insertion_updates_bounds_and_log_witness :
  bounds_updated (AddCube cube_b) space_a (fst (insert (AddCube cube_b) space_a))
  /\ changelog (fst (insert (AddCube cube_b) space_a))
     = changelog space_a ++ [Addition (time_step space_a) None].
Proof.
  apply (proj1 (insertion_updates_bounds_and_log space_a) (AddCube cube_b)).
  vm_compute. reflexivity.
Defined.

(** ** Names *)

(** C9: after a composite of three rows has gone in under a name, resolving
    the name gives no primitive ids and one range, of [stop - start = 3]. *)
Theorem composite_name_round_trip (c : CompositeCube) (n : string)
    (s s' : Space) :
  add_composite c s = (s', Ok tt) ->
  comp_name c = Some n ->
  length (comp_faces c) = 3 ->
  exists ids, _select_by_name n s' = (s', Ok ([], [ids]))
              /\ stop ids - start ids = 3.
Proof.
  intros H Hn H3. apply add_composite_inv in H. cbv zeta in H.
  destruct H as (_ & _ & _ & _ & _ & _ & _ & _ & _ & Hnames & _).
  rewrite Hn, H3 in Hnames. cbn [named] in Hnames.
  exists (Slice (primitive_counter s) (primitive_counter s + 3)).
  split; [| cbn [start stop]; lia].
  unfold _select_by_name. rewrite Hnames, lookup_insert_eq. reflexivity.
Qed.

Lemma composite_name_round_trip_witness :
  exists ids,
    _select_by_name "c" (fst (add_composite triple_c space_a))
    = (fst (add_composite triple_c space_a), Ok ([], [ids]))
    /\ stop ids - start ids = 3.
Proof.
  apply (composite_name_round_trip triple_c "c" space_a).
  - vm_compute. reflexivity.
  - reflexivity.
  - reflexivity.
Defined.

(** ** Capacity of the coordinate array *)

Lemma composite_capacity_Some (current base k cap : nat) :
  composite_capacity current base k = Some cap ->
  current <= cap
  /\ (current <= base + k -> 2 * current <= cap /\ k <= cap).
Proof.
  unfold composite_capacity.
  destruct (Nat.leb_spec current (base + k)) as [L | L].
  - destruct (double_until k current k) as [n |] eqn:Hd; [| discriminate].
    cbn [option_map]. intros H; inversion H; subst.
    apply double_until_Some in Hd. lia.
  - intros H; inversion H; subst. lia.
Qed.

(** C2, at the input where the code fails: nine cubes are in, the array has
    ten rows, and a composite of twelve rows is added.  The doubling loop
    compares the doubled capacity with the composite alone, so the array is
    resized once, to 20 rows, which is less than 9 + 12; the write of the
    rows raises and the composite is not added. *)
Theorem add_composite_resize_too_small :
  primitive_counter space_nine = 9
  /\ length (cuboid_coordinates space_nine) = 10
  /\ length (comp_faces twelve) = 12
  /\ composite_capacity 10 9 12 = Some 20
  /\ length (cuboid_coordinates (fst (add_composite twelve space_nine))) = 20
  /\ 20 < 9 + 12
  /\ snd (add_composite twelve space_nine) = Raise ValueError.
Proof. vm_compute. repeat split; try reflexivity. Qed.

(** ** Styles *)

(** C5, against the claim as stated: a composite whose style is neither
    the default nor "classic" is added without complaint. *)
Lemma unknown_style_is_accepted :
  comp_style (row_composite 3 0 "fancy" None) <> "default"
  /\ snd (add_composite (row_composite 3 0 "fancy" None) init) = Ok tt.
Proof. split; [discriminate | vm_compute; reflexivity]. Qed.

(** C5, amended: [add_composite] fails as unimplemented only for the style
    "classic"; no call with that style returns, and it fails as
    unimplemented whenever the composite has rows and they fit twice the
    current capacity.  A composite of the default style, as of any style
    other than "classic", never fails for this reason. *)
Theorem classic_style_unimplemented (c : CompositeCube) (s : Space) :
  (snd (add_composite c s) = Raise NotImplementedError ->
   comp_style c = "classic")
  /\ (comp_style c = "classic" -> snd (add_composite c s) <> Ok tt)
  /\ (comp_style c = "classic" ->
      comp_faces c <> [] ->
      primitive_counter s + length (comp_faces c)
        <= 2 * length (cuboid_coordinates s) ->
      snd (add_composite c s) = Raise NotImplementedError)
  /\ (comp_style c = "default" ->
      snd (add_composite c s) <> Raise NotImplementedError).
Proof.
  destruct (add_composite c s) as [s' r] eqn:H. cbn [snd].
  apply add_composite_inv in H. cbv zeta in H.
  destruct H as (_ & _ & _ & H).
  assert (Hraise : r = Raise NotImplementedError -> comp_style c = "classic").
  { intros ->.
    destruct H as [(E & _) | [(E & _) | [(_ & Hst & _)
                  | [(E & _) | (E & _)]]]];
      try discriminate. exact Hst. }
  split; [exact Hraise |]. split; [| split].
  - intros Hst ->. destruct H as [Hns _]. contradiction.
  - intros Hst Hne Hfit.
    assert (Hk : 0 < length (comp_faces c))
      by (destruct (comp_faces c); [congruence | cbn [length]; lia]).
    destruct r as [[] | e |].
    + destruct H as [Hns _]. contradiction.
    + destruct H as [(_ & E & _) | [(_ & _ & _ & cap & Hcap & Hlt)
                    | [(-> & _) | [(_ & Hns & _) | (_ & Hns & _)]]]];
        try contradiction; try reflexivity.
      apply composite_capacity_Some in Hcap as [Hc1 Hc2].
      destruct (Nat.le_gt_cases (length (cuboid_coordinates s))
                  (primitive_counter s + length (comp_faces c))) as [L | L];
        [apply Hc2 in L |]; lia.
    + lia.
  - intros Hd Hr. apply Hraise in Hr. congruence.
Qed.

Lemma classic_style_unimplemented_witness :
  snd (add_composite (row_composite 3 0 "classic" None) space_a)
  = Raise NotImplementedError.
Proof.
  apply (proj1 (proj2 (proj2
           (classic_style_unimplemented (row_composite 3 0 "classic" None)
                                        space_a)))).
  - reflexivity.
  - discriminate.
  - vm_compute. lia.
Defined.

(** ** Scenes *)

Lemma current_scene_is_valid_activity (s : Space) :
  SpaceIndex.current_scene_is_valid (cuboid_index s) (scene_counter s + 1) = true
  <-> scene_activity s.
Proof.
  unfold SpaceIndex.current_scene_is_valid, scene_activity.
  rewrite orb_true_iff, !existsb_exists.
  split; (intros [[e [Hin He]] | [e [Hin He]]]; [left | right]; exists e;
          (split; [exact Hin |])).
  1, 2: apply Nat.eqb_eq in He; lia.
  1, 2: apply Nat.eqb_eq; lia.
Qed.

Lemma insert_scene_activity (op : insertion) (s s' : Space) :
  insert op s = (s', Ok tt) -> scene_activity s'.
Proof.
  intros H. apply insert_ok in H.
  destruct H as (_ & Hsc & _ & _ & _ & _ & Hidx & _).
  unfold scene_activity. rewrite Hidx, Hsc.
  destruct op; cbn [registered SpaceIndex.add_primitive_to_index
                    SpaceIndex.add_composite_to_index
                    SpaceIndex.primitive_buffer SpaceIndex.composite_buffer];
    [left | left | right]; eexists; (split; [apply in_or_app; right; left;
                                              reflexivity | reflexivity]).
Qed.

(** C7: [snapshot] raises and leaves the space, so [scene_counter], as it
    was when the pending scene has recorded no activity; an insertion that
    returns records activity in the pending scene, a mutation does not undo
    it, and with activity recorded [snapshot] returns with [scene_counter]
    one higher. *)
Theorem snapshot_needs_activity (s : Space) :
  (~ scene_activity s -> snapshot s = (s, Raise PyException))
  /\ (forall op s', insert op s = (s', Ok tt) -> scene_activity s')
  /\ (forall sel kwargs,
        scene_activity s -> scene_activity (fst (mutate sel kwargs s)))
  /\ (scene_activity s ->
      exists s', snapshot s = (s', Ok tt)
                 /\ scene_counter s' = scene_counter s + 1).
Proof.
  split; [| split; [| split]].
  - intros Hno. rewrite snapshot_inv.
    destruct (SpaceIndex.current_scene_is_valid _ _) eqn:E; [| reflexivity].
    apply current_scene_is_valid_activity in E. contradiction.
  - intros op s'. apply insert_scene_activity.
  - intros sel kwargs Hact. rewrite mutate_mutation.
    pose proof (mutation_visual_only (select sel) kwargs
                  (select_read_only sel) s) as H.
    unfold visual_only in H. unfold scene_activity. rewrite H. exact Hact.
  - intros Hact. apply current_scene_is_valid_activity in Hact.
    rewrite snapshot_inv, Hact. eexists. split; reflexivity.
Qed.

Lemma snapshot_needs_activity_witness :
  snapshot init = (init, Raise PyException)
  /\ exists s', snapshot space_a = (s', Ok tt)
                /\ scene_counter s' = scene_counter space_a + 1.
Proof.
  split.
  - apply (proj1 (snapshot_needs_activity init)).
    intros [[e [[] _]] | [e [[] _]]].
  - apply (proj2 (proj2 (proj2 (snapshot_needs_activity space_a)))).
    apply (proj1 (proj2 (snapshot_needs_activity init)) (AddCube cube_a)).
    vm_compute. reflexivity.
Defined.

(** ** Selection by coordinate *)

(** With no row matching, the selection is empty and nothing is raised. *)
Lemma _select_by_coordinate_no_match (w h d : float) (s : Space) :
  matching_base_vectors (cuboid_coordinates s) (Vec3 w d h)
    (seq 0 (primitive_counter s)) = Some [] ->
  _select_by_coordinate [w; h; d] s = (s, Ok ([], [])).
Proof.
  intros H. unfold _select_by_coordinate. rewrite H. reflexivity.
Qed.

(** C6, at the input where the code fails: cubes "a" and "b" are in, "b"
    with base vector (1, 2, 3) in the store's axis order, and the caller
    asks for (w, h, d) = (1, 3, 2).  Row 1 matches, and is the only match;
    the walk holds the first registered primitive, 0, which is not a match,
    and never moves past it: the selection comes back empty. *)
Theorem select_by_coordinate_misses_second_cube :
  SpaceIndex.primitives (cuboid_index space_ab) = [0; 1]
  /\ SpaceIndex.composites (cuboid_index space_ab) = []
  /\ matching_base_vectors (cuboid_coordinates space_ab) (Vec3 1 2 3)
       (seq 0 (primitive_counter space_ab)) = Some [1]
  /\ snd (_select_by_coordinate [1; 3; 2]%float space_ab) = Ok ([], []).
Proof. vm_compute. repeat split; reflexivity. Qed.

(** ** The stores after an insertion *)


Lemma add_cube_stores (c : Cube) (s s' : Space) (r : result unit) :
  add_cube c s = (s', r) ->
  match r with
  | Ok _ =>
      primitive_counter s < length (cube_array s)
      /\ cuboid_coordinates s' =
           <[primitive_counter s := cube_faces c]> (cube_array s)
      /\ cuboid_visual_metadata s' =
           fold_left append_visual (cube_visual_metadata c)
                     (cuboid_visual_metadata s)
      /\ forall n, cube_name c = Some n -> cuboid_names s !! n = None
  | Raise e =>
      (e = IndexError
       /\ length (cube_array s) <= primitive_counter s
       /\ cuboid_coordinates s' = cube_array s
       /\ cuboid_visual_metadata s' = cuboid_visual_metadata s
       /\ cuboid_index s' = cuboid_index s)
      \/ (e = PyException
          /\ primitive_counter s < length (cube_array s)
          /\ cuboid_coordinates s' =
               <[primitive_counter s := cube_faces c]> (cube_array s)
          /\ cuboid_visual_metadata s' =
               fold_left append_visual (cube_visual_metadata c)
                         (cuboid_visual_metadata s)
          /\ cuboid_index s' =
               SpaceIndex.add_primitive_to_index (cuboid_index s)
                 (primitive_counter s) (time_step s) (scene_counter s))
  | Diverge => False
  end.
Proof.
  unfold add_cube, _add_cuboid_primitive, cube_array. run_monad.
  destruct (length (cuboid_coordinates s) <=? primitive_counter s);
    simpl_space;
    (match goal with
     | |- context [?i <? length ?l] =>
         destruct (Nat.ltb_spec i (length l)) as [Hlt | Hge]
     end; simpl_space;
     [| intros H; inv_pair; simpl_space; left; repeat split; auto]);
    (match goal with
     | |- context [_add_name ?n ?i ?x] =>
         set (s1 := x); destruct (_add_name n i s1) as [s2 r2] eqn:Hname
     end;
     apply _add_name_inv in Hname;
     destruct r2 as [[] | e |]; [| | destruct Hname];
     [| destruct Hname as (-> & -> & _); intros H; inv_pair; subst s1;
        simpl_space; right; repeat split; auto]);
    (assert (Hfree : forall n, cube_name c = Some n ->
                               cuboid_names s !! n = None)
       by (intros n Hn; rewrite Hn in Hname; destruct Hname as [Hname _];
           exact Hname);
     assert (Hs2 : cuboid_coordinates s2 = cuboid_coordinates s1
                   /\ cuboid_visual_metadata s2 = cuboid_visual_metadata s1)
       by (destruct (cube_name c);
           [destruct Hname as [_ ->] | subst s2]; split; reflexivity);
     destruct Hs2 as [Hc2 Hv2];
     match goal with
     | |- context [_update_bounds (Slice ?i _) ?x] =>
         destruct (_update_bounds_row x i (cube_faces c)) as (g & _ & Hub);
         [simpl_space; rewrite Hc2; subst s1; simpl_space;
          apply list_lookup_insert_eq; exact Hlt |]
     end;
     rewrite Hub; intros H; inv_pair; simpl_space;
     rewrite Hc2, Hv2; subst s1; simpl_space; repeat split; auto).
Qed.


Lemma composite_array_capacity (s : Space) (k : nat) (a : list faces) :
  composite_array s k = Some a ->
  composite_capacity (length (cuboid_coordinates s)) (primitive_counter s) k
  = Some (length a).
Proof.
  unfold composite_array, composite_capacity.
  destruct (_ <=? _); [| intros H; inversion H; reflexivity].
  destruct (double_until _ _ _) as [n |]; [| discriminate].
  cbn [option_map]. intros H; inversion H. now rewrite length_resize.
Qed.

Lemma add_composite_empty (c : CompositeCube) (s : Space) :
  comp_faces c = [] ->
  snd (add_composite c s) = Raise IndexError
  /\ cuboid_coordinates (fst (add_composite c s)) = cuboid_coordinates s
  /\ cuboid_visual_metadata (fst (add_composite c s)) = cuboid_visual_metadata s
  /\ cuboid_index (fst (add_composite c s)) = cuboid_index s.
Proof.
  intros H. unfold add_composite. rewrite H. run_monad. repeat split.
Qed.

Lemma add_composite_stores (c : CompositeCube) (s s' : Space)
    (r : result unit) :
  add_composite c s = (s', r) ->
  comp_faces c <> [] ->
  let k := length (comp_faces c) in
  let ids := Slice (primitive_counter s) (primitive_counter s + k) in
  match r with
  | Diverge => length (cuboid_coordinates s) = 0
  | _ =>
      exists a, composite_array s k = Some a
        /\ ((r = Raise ValueError
             /\ array_setslice a ids (comp_faces c) = None
             /\ cuboid_coordinates s' = a
             /\ cuboid_visual_metadata s' = cuboid_visual_metadata s
             /\ cuboid_index s' = cuboid_index s)
            \/ (array_setslice a ids (comp_faces c)
                = Some (cuboid_coordinates s')
                /\ cuboid_visual_metadata s' =
                     fold_left (extend_visual k) (comp_visual_metadata c)
                               (cuboid_visual_metadata s)
                /\ cuboid_index s' =
                     SpaceIndex.add_composite_to_index (cuboid_index s) ids
                       (time_step s) (scene_counter s)
                /\ (r = Ok tt ->
                    forall n, comp_name c = Some n ->
                              cuboid_names s !! n = None)))
  end.
Proof.
  intros H Hne. revert H.
  unfold add_composite, composite_array.
  destruct (comp_faces c) as [| first rest] eqn:Hf; [congruence |].
  rewrite <- Hf. run_monad.
  set (k := length (comp_faces c)).
  match goal with
  | |- context [let (_, _) := ?g ?x in _] =>
      set (st := x); destruct (g st) as [s0 r0] eqn:Hgrow
  end.
  assert (Hg : match r0 with
               | Ok _ =>
                   exists a, s0 = set_cuboid_coordinates a st
                     /\ (if length (cuboid_coordinates s)
                            <=? primitive_counter s + k
                         then option_map
                                (fun n => resize (2 * n) (cuboid_coordinates s))
                                (double_until k (length (cuboid_coordinates s)) k)
                         else Some (cuboid_coordinates s)) = Some a
               | Raise _ => False
               | Diverge => length (cuboid_coordinates s) = 0
               end).
  { destruct (length (cuboid_coordinates s) <=? primitive_counter s + k).
    - destruct (double_until k (length (cuboid_coordinates s)) k)
        as [n |] eqn:Hd; inv_pair.
      + eexists. split; reflexivity.
      + destruct (length (cuboid_coordinates s)) as [| m] eqn:E;
          [reflexivity |].
        destruct (double_until_terminates (S m) k) as [n Hn]; [lia |].
        congruence.
    - inv_pair. exists (cuboid_coordinates s). split; [| reflexivity].
      subst st. reflexivity. }
  clear Hgrow. destruct r0 as [[] | e |]; [| destruct Hg |].
  2: { intros H; inv_pair. exact Hg. }
  destruct Hg as (a & -> & Ha). simpl_space.
  destruct (array_setslice a _ (comp_faces c)) as [a' |] eqn:Hw.
  2: { intros H; inv_pair. subst st. simpl_space. exists a.
       split; [exact Ha |]. left. repeat split; auto. }
  simpl_space.
  destruct (String.eqb_spec (comp_style c) "classic") as [Hst | Hst].
  { intros H; inv_pair. subst st. simpl_space. exists a.
    split; [exact Ha |]. right. repeat split; auto. discriminate. }
  match goal with
  | |- context [_add_name ?n ?i ?x] =>
      set (s2 := x); destruct (_add_name n i s2) as [s3 r3] eqn:Hname
  end.
  apply _add_name_inv in Hname.
  destruct r3 as [[] | e |]; [| | destruct Hname].
  2: { destruct Hname as (-> & -> & _). intros H; inv_pair.
       subst s2 st. simpl_space. exists a.
       split; [exact Ha |]. right. repeat split; auto. discriminate. }
  assert (Hfree : forall n, comp_name c = Some n ->
                            cuboid_names s !! n = None).
  { intros n Hn. rewrite Hn in Hname. destruct Hname as [Hname _].
    exact Hname. }
  assert (Hs3 : cuboid_coordinates s3 = cuboid_coordinates s2
                /\ cuboid_visual_metadata s3 = cuboid_visual_metadata s2
                /\ cuboid_index s3 = cuboid_index s2).
  { destruct (comp_name c); [destruct Hname as [_ ->] | subst s3];
      repeat split; reflexivity. }
  destruct Hs3 as (Hc3 & Hv3 & Hi3). clear Hname.
  match goal with
  | |- context [_update_bounds ?i ?x] =>
      destruct (_update_bounds i x) as [s4 r4] eqn:Hub
  end.
  apply _update_bounds_inv in Hub. simpl_space.
  intros H; inv_pair.
  assert (Hs' : cuboid_coordinates s' = a'
                /\ cuboid_visual_metadata s' =
                     fold_left (extend_visual k) (comp_visual_metadata c)
                               (cuboid_visual_metadata s)
                /\ cuboid_index s' =
                     SpaceIndex.add_composite_to_index (cuboid_index s)
                       (Slice (primitive_counter s) (primitive_counter s + k))
                       (time_step s) (scene_counter s)).
  { destruct r as [[] | e |]; [| | destruct Hub].
    - destruct Hub as (g & _ & _ & ->). simpl_space.
      rewrite Hc3, Hv3, Hi3. subst s2 st. simpl_space. repeat split.
    - destruct Hub as (_ & -> & _). simpl_space.
      rewrite Hc3, Hv3, Hi3. subst s2 st. simpl_space. repeat split. }
  destruct Hs' as (Hc' & Hv' & Hi').
  destruct r as [[] | e |]; [| | destruct Hub]; exists a;
    (split; [exact Ha |]); right; rewrite Hc'; repeat split; auto.
Qed.

(** ** More on what a computation leaves alone *)

Section PreservationSteps.

Variable R : Space -> Space -> Prop.
Hypothesis R_refl : forall s, R s s.

Lemma preserves_modify (f : Space -> Space) :
  (forall s, R s (f s)) -> preserves R (modify f).
Proof. intros H s. apply H. Qed.

Lemma preserves_diverge {A} : preserves R (@diverge A).
Proof. intros s. apply R_refl. Qed.

Lemma preserves_read_only {A} (c : M A) : read_only c -> preserves R c.
Proof. intros H s. rewrite H. apply R_refl. Qed.

End PreservationSteps.

Lemma names_kept_refl (s : Space) : names_kept s s.
Proof. unfold names_kept. reflexivity. Qed.

Lemma names_kept_trans (s1 s2 s3 : Space) :
  names_kept s1 s2 -> names_kept s2 s3 -> names_kept s1 s3.
Proof. unfold names_kept. intros H1 H2. etransitivity; eassumption. Qed.

Lemma names_kept_same (s s' : Space) :
  cuboid_names s' = cuboid_names s -> names_kept s s'.
Proof. unfold names_kept. intros ->. reflexivity. Qed.

Lemma _add_name_names_kept name ids : preserves names_kept (_add_name name ids).
Proof.
  intros s. destruct (_add_name name ids s) as [s' r] eqn:H.
  apply _add_name_inv in H. cbn [fst]. destruct r as [[] | e |].
  - destruct name as [n |]; [| subst; apply names_kept_refl].
    destruct H as [Hfree ->]. unfold names_kept. simpl_space.
    now apply insert_subseteq.
  - destruct H as (_ & -> & _). apply names_kept_refl.
  - destruct H.
Qed.

Lemma _update_bounds_names_kept ids : preserves names_kept (_update_bounds ids).
Proof.
  intros s. destruct (_update_bounds ids s) as [s' r] eqn:H.
  apply _update_bounds_inv in H. cbn [fst]. destruct r as [[] | e |].
  - destruct H as (g & _ & _ & ->). now apply names_kept_same.
  - destruct H as (_ & -> & _). apply names_kept_refl.
  - destruct H.
Qed.

(** Steps that write fields other than the name index. *)
Ltac names_kept_step :=
  first
    [ apply (preserves_bind _ names_kept_trans)
    | apply (preserves_ret _ names_kept_refl)
    | apply (preserves_raise _ names_kept_refl)
    | apply (preserves_gets _ names_kept_refl)
    | apply (preserves_diverge _ names_kept_refl)
    | apply _add_name_names_kept
    | apply _update_bounds_names_kept
    | apply preserves_modify; intros ?; apply names_kept_same; reflexivity
    | intros ? ].

Lemma store_row_names_kept i f : preserves names_kept (store_row i f).
Proof.
  intros s. unfold store_row. case_if; cbn [fst];
    [now apply names_kept_same | apply names_kept_refl].
Qed.

Lemma store_rows_names_kept ids rows : preserves names_kept (store_rows ids rows).
Proof.
  intros s. unfold store_rows. destruct (array_setslice _ _ _); cbn [fst];
    [now apply names_kept_same | apply names_kept_refl].
Qed.

Lemma add_cube_names_kept c : preserves names_kept (add_cube c).
Proof.
  unfold add_cube, _add_cuboid_primitive, record_addition.
  repeat first [ apply store_row_names_kept | case_if | names_kept_step ].
Qed.

Lemma add_composite_names_kept c : preserves names_kept (add_composite c).
Proof.
  unfold add_composite, record_addition.
  repeat first [ apply store_rows_names_kept
               | match goal with
                 | |- context [match ?x with _ => _ end] => destruct x
                 end
               | names_kept_step ].
Qed.

Lemma read_only_bind_ret {A B} (c : M A) (f : A -> B) :
  read_only c -> read_only (bind c (fun a => ret (f a))).
Proof.
  intros H s. unfold bind, ret. specialize (H s).
  destruct (c s) as [s1 [a | e |]]; exact H.
Qed.

Lemma create_by_offset_read_only offset coordinate name timestep scene kwargs :
  read_only (create_by_offset offset coordinate name timestep scene kwargs).
Proof.
  unfold create_by_offset. case_if; [intros ?; reflexivity |].
  destruct coordinate, name, timestep, scene; try (intros ?; reflexivity);
    apply read_only_bind_ret;
    auto using _select_by_coordinate_read_only, _select_by_name_read_only,
      _select_by_timestep_read_only, _select_by_scene_read_only.
Qed.

Lemma visual_only_names_kept (s s' : Space) :
  visual_only s s' -> names_kept s s'.
Proof. unfold visual_only. intros ->. now apply names_kept_same. Qed.

Lemma perform_names_kept (c : call) : preserves names_kept (perform c).
Proof.
  destruct c as [[cube | cuboid | composite] | sel kwargs | |
                 offset coordinate name timestep scene kwargs];
    cbn [perform insert].
  - apply add_cube_names_kept.
  - apply add_cube_names_kept.
  - apply add_composite_names_kept.
  - intros s. apply visual_only_names_kept. rewrite mutate_mutation.
    apply mutation_visual_only, select_read_only.
  - intros s. rewrite snapshot_inv. case_if; cbn [fst];
      [now apply names_kept_same | apply names_kept_refl].
  - apply preserves_read_only; [apply names_kept_refl |].
    apply read_only_bind_ret, create_by_offset_read_only.
Qed.

(** ** Names are written once *)

(** X1: whatever a name resolves to, it resolves to after any public call,
    returned or raised: no call rebinds or removes a name. *)
Theorem name_bindings_persist (c : call) (s : Space) (n : string)
    (sel : selection) :
  _select_by_name n s = (s, Ok sel) ->
  _select_by_name n (fst (perform c s)) = (fst (perform c s), Ok sel).
Proof.
  unfold _select_by_name. cbv beta. intros H.
  destruct (cuboid_names s !! n) as [[p q] |] eqn:E; [| discriminate].
  pose proof (perform_names_kept c s) as Hk. unfold names_kept in Hk.
  assert (E' : cuboid_names (fst (perform c s)) !! n = Some (p, q))
    by (eapply lookup_weaken; [exact E | exact Hk]).
  rewrite E'. inv_pair. reflexivity.
Qed.

Lemma name_bindings_persist_witness :
  _select_by_name "a" (fst (perform (Insert (AddCube cube_a)) space_a))
  = (fst (perform (Insert (AddCube cube_a)) space_a), Ok ([0], [])).
Proof.
  apply (name_bindings_persist (Insert (AddCube cube_a)) space_a "a").
  vm_compute. reflexivity.
Defined.

Lemma insert_ok_name_free (op : insertion) (s s' : Space) (n : string) :
  insert op s = (s', Ok tt) -> name_of op = Some n ->
  cuboid_names s !! n = None.
Proof.
  destruct op as [c | c | c]; cbn [insert name_of]; intros H Hn.
  - apply add_cube_stores in H. now apply H.
  - apply add_cube_stores in H. now apply H.
  - destruct (comp_faces c) as [| f rest] eqn:Hf.
    + pose proof (add_composite_empty c s Hf) as [He _].
      rewrite H in He. discriminate.
    + apply add_composite_stores in H; [| congruence]. cbv zeta in H.
      destruct H as (a & _ & [(E & _) | (_ & _ & _ & Hfree)]);
        [discriminate | now apply Hfree].
Qed.

(** X2: an insertion under a name already bound never returns, and leaves
    the name bound to what it was. *)
Theorem bound_name_is_rejected (op : insertion) (s : Space) (n : string)
    (ids : object_ids) :
  name_of op = Some n ->
  cuboid_names s !! n = Some ids ->
  snd (insert op s) <> Ok tt
  /\ cuboid_names (fst (insert op s)) !! n = Some ids.
Proof.
  intros Hn Hb. split.
  - destruct (insert op s) as [s' r] eqn:H. cbn [snd]. intros ->.
    rewrite (insert_ok_name_free _ _ _ _ H Hn) in Hb. discriminate.
  - pose proof (perform_names_kept (Insert op) s) as Hk.
    cbn [perform] in Hk. eapply lookup_weaken; [exact Hb | exact Hk].
Qed.

Lemma bound_name_is_rejected_witness :
  snd (insert (AddComposite (row_composite 2 0 "default" (Some "a"))) space_a)
  <> Ok tt
  /\ cuboid_names
       (fst (insert (AddComposite (row_composite 2 0 "default" (Some "a")))
                    space_a)) !! "a" = Some (Some [0], None).
Proof.
  apply (bound_name_is_rejected
           (AddComposite (row_composite 2 0 "default" (Some "a")))
           space_a "a").
  - reflexivity.
  - vm_compute. reflexivity.
Defined.

(** X3: after an insertion that returns, the name of the object, if it has
    one, was free before and resolves to the new rows: the id of a cube or
    cuboid, the one range of a composite; every other name resolves as it
    did. *)
Theorem inserted_name_resolves (op : insertion) (s s' : Space) :
  insert op s = (s', Ok tt) ->
  (forall n, name_of op = Some n ->
     cuboid_names s !! n = None
     /\ _select_by_name n s' =
          (s', Ok match op with
                  | AddCube _ | AddCuboid _ => ([primitive_counter s], [])
                  | AddComposite c =>
                      ([], [Slice (primitive_counter s)
                                  (primitive_counter s + length (comp_faces c))])
                  end))
  /\ (forall n, name_of op <> Some n ->
        cuboid_names s' !! n = cuboid_names s !! n).
Proof.
  intros H. pose proof (insert_ok _ _ _ H) as Hok.
  destruct Hok as (_ & _ & _ & _ & _ & _ & _ & Hnames).
  split.
  - intros n Hn. split; [exact (insert_ok_name_free _ _ _ _ H Hn) |].
    unfold _select_by_name. rewrite Hnames, Hn. cbn [named].
    rewrite lookup_insert_eq. destruct op; reflexivity.
  - intros n Hn. rewrite Hnames. destruct (name_of op) as [m |]; cbn [named];
      [| reflexivity].
    apply lookup_insert_ne. congruence.
Qed.

Lemma inserted_name_resolves_witness :
  cuboid_names space_a !! "b" = None
  /\ _select_by_name "b" (fst (insert (AddCube cube_b) space_a))
     = (fst (insert (AddCube cube_b) space_a), Ok ([1], [])).
Proof.
  destruct (inserted_name_resolves (AddCube cube_b) space_a
              (fst (insert (AddCube cube_b) space_a))) as [H _].
  - vm_compute. reflexivity.
  - apply (H "b"). reflexivity.
Defined.

(** ** Rows of the coordinate array *)

Lemma resize_grow (n : nat) (a : list faces) :
  length a <= n -> resize n a = a ++ repeat fzero (n - length a).
Proof. intros H. unfold resize. now rewrite firstn_all2. Qed.

Lemma cube_array_prefix (s : Space) :
  length (cuboid_coordinates s) <= length (cube_array s)
  /\ forall i, i <= length (cuboid_coordinates s) ->
       take i (cube_array s) = take i (cuboid_coordinates s).
Proof.
  unfold cube_array. case_if; [| split; [lia | reflexivity]].
  rewrite length_resize. split; [lia |]. intros i Hi.
  rewrite resize_grow by lia. now apply take_app_le.
Qed.

Lemma composite_array_prefix (s : Space) (k : nat) (a : list faces) :
  composite_array s k = Some a ->
  length (cuboid_coordinates s) <= length a
  /\ forall i, i <= length (cuboid_coordinates s) ->
       take i a = take i (cuboid_coordinates s).
Proof.
  unfold composite_array. case_if.
  - destruct (double_until _ _ _) as [n |] eqn:Hd; [| discriminate].
    cbn [option_map]. intros H; inversion H; subst a.
    apply double_until_Some in Hd as [Hn _].
    rewrite length_resize. split; [lia |]. intros i Hi.
    rewrite resize_grow by lia. now apply take_app_le.
  - intros H; inversion H; subst a. split; [lia | reflexivity].
Qed.

Lemma array_setslice_length (a rows a' : list faces) (base : nat) :
  rows <> [] ->
  array_setslice a (Slice base (base + length rows)) rows = Some a' ->
  length a' = length a.
Proof.
  intros Hne H. apply array_setslice_Some in H as [[Hfit ->] | (_ & _ & ->)];
    [| reflexivity | exact Hne].
  rewrite !length_app, length_take, length_drop. lia.
Qed.

(** The coordinate array after an insertion that returned. *)
Lemma insert_ok_rows (op : insertion) (s s' : Space) :
  insert op s = (s', Ok tt) ->
  exists a,
    length (cuboid_coordinates s) <= length a
    /\ (forall i, i <= length (cuboid_coordinates s) ->
          take i a = take i (cuboid_coordinates s))
    /\ primitive_counter s + length (rows_of op) <= length a
    /\ cuboid_coordinates s' =
         take (primitive_counter s) a ++ rows_of op
         ++ drop (primitive_counter s + length (rows_of op)) a.
Proof.
  destruct op as [c | c | c]; cbn [insert rows_of length]; intros H.
  1, 2: apply add_cube_stores in H as (Hlt & Hc & _);
    exists (cube_array s);
    destruct (cube_array_prefix s) as [Hlen Hpre];
    (split; [exact Hlen |]); (split; [exact Hpre |]); (split; [lia |]);
    rewrite Hc, Nat.add_1_r; apply insert_take_drop; exact Hlt.
  pose proof (add_composite_inv _ _ _ _ H) as Hinv. cbv zeta in Hinv.
  destruct Hinv as (_ & _ & _ & _ & _ & _ & _ & _ & _ & _ & _ & Hfit & _).
  destruct (comp_faces c) as [| f rest] eqn:Hf.
  { pose proof (add_composite_empty c s Hf) as [He _].
    rewrite H in He. discriminate. }
  rewrite <- Hf in *.
  assert (Hne : comp_faces c <> []) by congruence.
  apply add_composite_stores in H; [| exact Hne]. cbv zeta in H.
  destruct H as (a & Ha & [(E & _) | (Hw & _)]); [discriminate |].
  exists a. destruct (composite_array_prefix _ _ _ Ha) as [Hlen Hpre].
  split; [exact Hlen |]. split; [exact Hpre |].
  pose proof (array_setslice_length _ _ _ _ Hne Hw) as Hl.
  split; [lia |].
  rewrite array_setslice_fits in Hw by lia. now inversion Hw.
Qed.

(** X4: an insertion that returns, into a space whose counter is within the
    array, leaves every earlier row as it was and the new rows, as passed,
    right after them: the rows in use are the old ones followed by the
    object's. *)
Theorem insert_appends_rows (op : insertion) (s s' : Space) :
  insert op s = (s', Ok tt) ->
  primitive_counter s <= length (cuboid_coordinates s) ->
  take (primitive_counter s') (cuboid_coordinates s')
  = take (primitive_counter s) (cuboid_coordinates s) ++ rows_of op
  /\ primitive_counter s' <= length (cuboid_coordinates s').
Proof.
  intros H Hpc. pose proof (insert_ok _ _ _ H) as (_ & _ & _ & Hp & _).
  destruct (insert_ok_rows _ _ _ H) as (a & Hlen & Hpre & Hfit & ->).
  rewrite Hp. split.
  - rewrite app_assoc, take_app_length'.
    + now rewrite Hpre.
    + rewrite length_app, length_take. lia.
  - rewrite !length_app, length_take, length_drop. lia.
Qed.

Lemma insert_appends_rows_witness :
  take (primitive_counter (fst (insert (AddComposite twelve) space_a)))
       (cuboid_coordinates (fst (insert (AddComposite twelve) space_a)))
  = take (primitive_counter space_a) (cuboid_coordinates space_a)
    ++ rows_of (AddComposite twelve)
  /\ primitive_counter (fst (insert (AddComposite twelve) space_a))
     <= length (cuboid_coordinates (fst (insert (AddComposite twelve) space_a))).
Proof.
  apply (insert_appends_rows (AddComposite twelve) space_a).
  - vm_compute. reflexivity.
  - vm_compute. lia.
Defined.

Lemma run_inserts_from (ops : list insertion) (s0 s : Space) :
  run (map insert ops) s0 = (s, Ok tt) ->
  primitive_counter s0 <= length (cuboid_coordinates s0) ->
  take (primitive_counter s) (cuboid_coordinates s)
  = take (primitive_counter s0) (cuboid_coordinates s0)
    ++ concat (map rows_of ops)
  /\ primitive_counter s
     = primitive_counter s0 + length (concat (map rows_of ops))
  /\ num_objs s = num_objs s0 + length ops
  /\ time_step s = time_step s0 + length ops.
Proof.
  revert s0. induction ops as [| op ops IH]; intros s0 H Hpc;
    cbn [map run concat length] in *.
  - unfold ret in H. inv_pair. rewrite app_nil_r. repeat split; lia.
  - apply bind_inv in H as [(s1 & [] & H1 & H) | [(e & _ & E) | [_ E]]];
      try discriminate.
    destruct (insert_appends_rows _ _ _ H1 Hpc) as [Hrows Hpc1].
    pose proof (insert_ok _ _ _ H1) as (_ & _ & Hn & Hp & Ht & _).
    destruct (IH _ H Hpc1) as (IH1 & IH2 & IH3 & IH4).
    rewrite IH1, IH2, IH3, IH4, Hrows, Hp, Hn, Ht, length_app, app_assoc.
    repeat split; lia.
Qed.

(** X5: when a sequence of insertions into a new space has all returned,
    the rows in use are the rows of the objects, in the order inserted;
    [primitive_counter] is their number, [num_objs] and [time_step] the
    number of insertions. *)
Theorem inserted_sequence_stored (ops : list insertion) (s : Space) :
  run (map insert ops) init = (s, Ok tt) ->
  take (primitive_counter s) (cuboid_coordinates s) = concat (map rows_of ops)
  /\ primitive_counter s = length (concat (map rows_of ops))
  /\ num_objs s = length ops
  /\ time_step s = length ops.
Proof.
  intros H. apply run_inserts_from in H; [exact H |].
  cbn. lia.
Qed.

Lemma inserted_sequence_stored_witness :
  take (primitive_counter
          (fst (run (map insert [AddCube cube_a; AddComposite twelve;
                                 AddCuboid cube_b]) init)))
       (cuboid_coordinates
          (fst (run (map insert [AddCube cube_a; AddComposite twelve;
                                 AddCuboid cube_b]) init)))
  = concat (map rows_of [AddCube cube_a; AddComposite twelve; AddCuboid cube_b])
  /\ primitive_counter
       (fst (run (map insert [AddCube cube_a; AddComposite twelve;
                              AddCuboid cube_b]) init)) = 14.
Proof.
  destruct (inserted_sequence_stored
              [AddCube cube_a; AddComposite twelve; AddCuboid cube_b]
              (fst (run (map insert [AddCube cube_a; AddComposite twelve;
                                     AddCuboid cube_b]) init)))
    as (H1 & H2 & _).
  - vm_compute. reflexivity.
  - split; [exact H1 | exact H2].
Defined.

(** ** Well-formed spaces *)

Lemma cube_array_room (s : Space) :
  0 < length (cuboid_coordinates s) ->
  primitive_counter s <= length (cuboid_coordinates s) ->
  primitive_counter s < length (cube_array s).
Proof.
  intros H0 Hpc. unfold cube_array.
  destruct (Nat.leb_spec (length (cuboid_coordinates s)) (primitive_counter s));
    [rewrite length_resize |]; lia.
Qed.

Lemma composite_array_room (s : Space) (k : nat) (a : list faces) :
  0 < length (cuboid_coordinates s) ->
  primitive_counter s <= length (cuboid_coordinates s) ->
  composite_array s k = Some a ->
  primitive_counter s < length a.
Proof.
  intros H0 Hpc Ha. pose proof (composite_array_prefix _ _ _ Ha) as [Hlen _].
  apply composite_array_capacity, composite_capacity_Some in Ha as [_ Hc].
  destruct (Nat.le_gt_cases (length (cuboid_coordinates s))
              (primitive_counter s + k)) as [L | L]; [apply Hc in L |]; lia.
Qed.

(** How [add_composite] leaves the array and the counter of a space whose
    counter is within a non-empty array. *)
Lemma add_composite_room (c : CompositeCube) (s s' : Space) (r : result unit) :
  add_composite c s = (s', r) ->
  0 < length (cuboid_coordinates s) ->
  primitive_counter s <= length (cuboid_coordinates s) ->
  length (cuboid_coordinates s) <= length (cuboid_coordinates s')
  /\ primitive_counter s' <= length (cuboid_coordinates s')
  /\ primitive_counter s <= primitive_counter s'
  /\ match r with
     | Ok _ => comp_faces c <> []
     | Raise e =>
         same_bookkeeping s s'
         /\ ((e = IndexError /\ comp_faces c = [])
             \/ (e = ValueError
                 /\ exists cap,
                      composite_capacity (length (cuboid_coordinates s))
                        (primitive_counter s) (length (comp_faces c))
                      = Some cap
                      /\ cap < primitive_counter s + length (comp_faces c))
             \/ (e = NotImplementedError /\ comp_style c = "classic")
             \/ (e = PyException
                 /\ exists n, comp_name c = Some n
                      /\ is_Some (cuboid_names s !! n)))
     | Diverge => False
     end.
Proof.
  intros H H0 Hpc. pose proof (add_composite_inv _ _ _ _ H) as Hinv.
  cbv zeta in Hinv. destruct Hinv as (_ & _ & _ & Hinv).
  destruct (comp_faces c) as [| f rest] eqn:Hf.
  { pose proof (add_composite_empty c s Hf) as (He & Hc & _).
    rewrite H in He, Hc. cbn [fst snd] in He, Hc. subst r.
    destruct Hinv as [(_ & _ & Hbk & Hp) | [(E & _) | [(E & _)
                     | [(E & _) | (E & _)]]]]; try discriminate.
    rewrite Hc, Hp. do 3 (split; [lia |]). split; [exact Hbk |].
    left. split; reflexivity. }
  rewrite <- Hf in *.
  assert (Hne : comp_faces c <> []) by congruence.
  assert (Hk : 0 < length (comp_faces c))
    by (rewrite Hf; cbn [length]; lia).
  apply add_composite_stores in H; [| exact Hne]. cbv zeta in H.
  destruct r as [[] | e |]; [| | lia].
  - destruct Hinv as (_ & _ & Hp & _ & _ & _ & _ & Hcap & Hfit & _).
    apply composite_capacity_Some in Hcap as [Hlen _].
    rewrite Hp. repeat split; try lia. exact Hne.
  - destruct H as (a & Ha & Hw).
    pose proof (composite_array_room _ _ _ H0 Hpc Ha) as Hroom.
    destruct (composite_array_prefix _ _ _ Ha) as [Hlen _].
    destruct Hw as [(E & _ & Hc & _) | (Hw & _)].
    + inversion E; subst e; clear E. destruct Hinv as [(_ & E & _) | [(_ & Hbk & Hp & Hcap) | [(E & _)
                       | [(E & _) | (_ & _ & Hshort)]]]];
        try discriminate; try contradiction.
      * rewrite Hc, Hp. do 3 (split; [lia |]). split; [exact Hbk |].
        right. left. split; [reflexivity | assumption].
      * rewrite Hc in Hshort. lia.
    + pose proof (array_setslice_length _ _ _ _ Hne Hw) as Hl.
      apply (array_setslice_Some _ _ _ _ Hne) in Hw
        as [[Hfit _] | (Hshort & _)]; [| lia].
      destruct Hinv as [(_ & E & _) | [(-> & Hbk & Hp & Hcap)
                       | [(-> & Hst & Hbk & Hp)
                       | [(-> & _ & Hbk & Hp & Hn) | (_ & _ & Hshort)]]]];
        try contradiction; try lia;
        rewrite Hl, Hp; do 3 (split; [lia |]); (split; [exact Hbk |]).
      * right. left. split; [reflexivity | exact Hcap].
      * right. right. left. split; [reflexivity | exact Hst].
      * right. right. right. split; [reflexivity | exact Hn].
Qed.

Lemma add_cube_room (c : Cube) (s s' : Space) (r : result unit) :
  add_cube c s = (s', r) ->
  0 < length (cuboid_coordinates s) ->
  primitive_counter s <= length (cuboid_coordinates s) ->
  length (cuboid_coordinates s) <= length (cuboid_coordinates s')
  /\ primitive_counter s' <= length (cuboid_coordinates s')
  /\ primitive_counter s <= primitive_counter s'
  /\ match r with
     | Ok _ => True
     | Raise e => e = PyException /\ same_bookkeeping s s'
     | Diverge => False
     end.
Proof.
  intros H H0 Hpc. pose proof (add_cube_inv _ _ _ _ H) as (_ & _ & _ & Hinv).
  apply add_cube_stores in H.
  pose proof (cube_array_room s H0 Hpc) as Hroom.
  destruct (cube_array_prefix s) as [Hlen _].
  destruct r as [[] | e |]; [| | destruct H].
  - destruct H as (_ & Hc & _). destruct Hinv as (_ & Hp & _).
    rewrite Hc, length_insert, Hp. repeat split; lia.
  - destruct Hinv as [Hbk Hinv].
    destruct H as [(_ & Hshort & _) | (-> & _ & Hc & _)]; [lia |].
    destruct Hinv as [(_ & Hp & _) | [E _]]; [| discriminate].
    rewrite Hc, length_insert, Hp. repeat split; try lia; apply Hbk.
Qed.

Lemma ids_below_le (b b' : nat) (ids : object_ids) :
  b <= b' -> ids_below b ids -> ids_below b' ids.
Proof.
  intros Hb [H1 H2]. split.
  - intros l i Hl Hi. specialize (H1 l i Hl Hi). lia.
  - intros l sl Hl Hi. specialize (H2 l sl Hl Hi). lia.
Qed.

Lemma seq_log (t : nat) :
  map (fun t => Addition t None) (seq 0 (t + 1))
  = map (fun t => Addition t None) (seq 0 t) ++ [Addition t None].
Proof. rewrite Nat.add_1_r, seq_S, map_app. reflexivity. Qed.

Lemma insert_well_formed (op : insertion) (s : Space) :
  well_formed s -> well_formed (fst (insert op s)).
Proof.
  intros (H10 & Hpc & Hno & Hnp & Hlog & Hnames).
  destruct (insert op s) as [s' r] eqn:H. cbn [fst].
  assert (Hroom :
    length (cuboid_coordinates s) <= length (cuboid_coordinates s')
    /\ primitive_counter s' <= length (cuboid_coordinates s')
    /\ primitive_counter s <= primitive_counter s'
    /\ match r with
       | Ok _ => 0 < length (rows_of op)
       | Raise _ => same_bookkeeping s s'
       | Diverge => False
       end).
  { destruct op as [c | c | c]; cbn [insert rows_of length] in *.
    - apply add_cube_room in H as (? & ? & ? & Hr); try lia.
      repeat split; try assumption.
      destruct r as [[] | e |]; [lia | apply Hr | exact Hr].
    - apply add_cube_room in H as (? & ? & ? & Hr); try lia.
      repeat split; try assumption.
      destruct r as [[] | e |]; [lia | apply Hr | exact Hr].
    - apply add_composite_room in H as (? & ? & ? & Hr); try lia.
      repeat split; try assumption.
      destruct r as [[] | e |]; [| apply Hr | exact Hr].
      destruct (comp_faces c); [congruence | cbn [length]; lia]. }
  destruct Hroom as (Hlen & Hpc' & Hmono & Hr).
  destruct r as [[] | e |]; [| | destruct Hr].
  - pose proof (insert_ok _ _ _ H)
      as (_ & _ & Hn & Hp & Ht & Hc & _ & Hnm).
    unfold well_formed. rewrite Hn, Ht, Hc, Hlog, Hp, seq_log.
    do 4 (split; [lia |]). split; [reflexivity |].
    intros n ids. rewrite Hnm. destruct (name_of op) as [m |]; cbn [named].
    + rewrite lookup_insert. case_decide.
      * intros E; inversion E; subst ids.
        destruct op; cbn [ids_of rows_of length fst snd] in *; split;
          cbn [fst snd]; intros l x El Hx; inversion El; subst l;
          destruct Hx as [<- | []]; cbn [start stop]; lia.
      * intros E. eapply ids_below_le; [| exact (Hnames _ _ E)]. lia.
    + intros E. eapply ids_below_le; [| exact (Hnames _ _ E)]. lia.
  - destruct Hr as (Hnm & Hn & Ht & _ & Hc).
    unfold well_formed. rewrite Hn, Ht, Hc, Hnm.
    do 4 (split; [lia |]). split; [exact Hlog |].
    intros n ids E. eapply ids_below_le; [| exact (Hnames _ _ E)]. lia.
Qed.

Lemma visual_only_well_formed (s s' : Space) :
  visual_only s s' -> well_formed s -> well_formed s'.
Proof. unfold visual_only. intros ->. exact (fun H => H). Qed.

Lemma perform_well_formed (c : call) (s : Space) :
  well_formed s -> well_formed (fst (perform c s)).
Proof.
  destruct c as [op | sel kwargs | |
                 offset coordinate name timestep scene kwargs];
    cbn [perform]; intros H.
  - now apply insert_well_formed.
  - eapply visual_only_well_formed; [| exact H]. rewrite mutate_mutation.
    apply mutation_visual_only, select_read_only.
  - rewrite snapshot_inv. case_if; exact H.
  - rewrite read_only_bind_ret; [exact H | apply create_by_offset_read_only].
Qed.

(** X6: in every space a program can hold, whichever calls returned and
    whichever raised, the array has at least its ten first rows and holds
    every row counted, [num_objs] equals [time_step] and is at most
    [primitive_counter], the change log is [Addition(0, None)], ...,
    [Addition(time_step - 1, None)], and every name denotes rows below
    [primitive_counter], a composite's range being non-empty. *)
Theorem reachable_well_formed (s : Space) : reachable s -> well_formed s.
Proof.
  induction 1 as [| s c _ IH].
  - unfold well_formed. cbn. do 4 (split; [lia |]). split; [reflexivity |].
    intros n ids E. rewrite lookup_empty in E. discriminate.
  - now apply perform_well_formed.
Qed.

Lemma reachable_well_formed_witness :
  snd (perform (Insert (AddCube cube_a)) space_a) = Raise PyException
  /\ well_formed
       (fst (perform (Insert (AddComposite twelve))
               (fst (perform (Insert (AddCube cube_a))
                       (fst (perform (Insert (AddCube cube_a)) init)))))).
Proof.
  split; [vm_compute; reflexivity |].
  apply reachable_well_formed.
  do 3 apply reachable_step. apply reachable_init.
Defined.

(** ** Calls end *)

Lemma returns_or_raises_bind {A B} (c : M A) (k : A -> M B) :
  returns_or_raises c -> (forall a, returns_or_raises (k a)) ->
  returns_or_raises (bind c k).
Proof.
  intros Hc Hk s. unfold bind. specialize (Hc s).
  destruct (c s) as [s1 [a | e |]]; cbn [snd] in *;
    [apply Hk | discriminate | congruence].
Qed.

Lemma returns_or_raises_for_each {A} (l : list A) (body : A -> M unit) :
  (forall x, returns_or_raises (body x)) ->
  returns_or_raises (for_each l body).
Proof.
  intros Hb. induction l as [| x l IH]; cbn [for_each].
  - intros s. discriminate.
  - apply returns_or_raises_bind; auto.
Qed.

Lemma select_returns_or_raises (sel : selector) :
  returns_or_raises (select sel).
Proof.
  intros s. destruct sel as [coordinate | name | t | t]; cbn [select].
  - unfold _select_by_coordinate.
    destruct coordinate as [| w [| h [| d [| ? ?]]]]; try discriminate.
    destruct (matching_base_vectors _ _ _); discriminate.
  - unfold _select_by_name.
    destruct (cuboid_names s !! name) as [[? ?] |]; discriminate.
  - unfold _select_by_timestep. case_if; discriminate.
  - unfold _select_by_scene. case_if; discriminate.
Qed.

Lemma _mutate_by_ids_returns_or_raises ps cs kwargs :
  returns_or_raises (_mutate_by_ids ps cs kwargs).
Proof.
  unfold _mutate_by_ids. apply returns_or_raises_for_each. intros kv.
  unfold mutate_key. apply returns_or_raises_bind; [intros s; discriminate |].
  intros [l |]; [| intros s; discriminate].
  apply returns_or_raises_bind; intros; apply returns_or_raises_for_each;
    intros x s.
  - unfold visual_setitem.
    destruct (cuboid_visual_metadata s !! kv.1); [case_if |]; discriminate.
  - unfold visual_setslice.
    destruct (cuboid_visual_metadata s !! kv.1); discriminate.
Qed.

(** X7: on a space a program can hold every public call returns or raises;
    in particular the doubling loop of [add_composite] ends. *)
Theorem public_calls_end (c : call) (s : Space) :
  reachable s -> snd (perform c s) <> Diverge.
Proof.
  intros Hr. apply reachable_well_formed in Hr as (H10 & _).
  destruct c as [[cube | cuboid | composite] | sel kwargs | |
                 offset coordinate name timestep scene kwargs];
    cbn [perform insert].
  - destruct (add_cube cube s) as [s' r] eqn:H.
    apply add_cube_inv in H as (_ & _ & _ & H). cbn [snd]. intros ->. exact H.
  - destruct (add_cuboid cuboid s) as [s' r] eqn:H.
    apply add_cube_inv in H as (_ & _ & _ & H). cbn [snd]. intros ->. exact H.
  - destruct (add_composite composite s) as [s' r] eqn:H.
    apply add_composite_inv in H. cbv zeta in H.
    destruct H as (_ & _ & _ & H). cbn [snd]. intros ->. lia.
  - rewrite mutate_mutation. unfold mutation.
    apply returns_or_raises_bind;
      [apply select_returns_or_raises
      | intros; apply _mutate_by_ids_returns_or_raises].
  - rewrite snapshot_inv. case_if; discriminate.
  - unfold create_by_offset. apply returns_or_raises_bind;
      [| intros ? ?; discriminate].
    case_if; [intros ?; discriminate |].
    destruct coordinate, name, timestep, scene; try (intros ?; discriminate);
      (apply returns_or_raises_bind; [| intros ? ?; discriminate]).
    + apply (select_returns_or_raises (ByCoordinate _)).
    + apply (select_returns_or_raises (ByName _)).
    + apply (select_returns_or_raises (ByTimestep _)).
    + apply (select_returns_or_raises (ByScene _)).
Qed.

Lemma public_calls_end_witness :
  snd (perform (Insert (AddComposite twelve)) (fst (perform Snapshot init)))
  <> Diverge.
Proof.
  apply public_calls_end. apply reachable_step. apply reachable_init.
Defined.

(** ** Insertions that go through *)

(** X8: an insertion returns when the counter is within a non-empty array,
    the object has rows, they fit twice the current capacity (or the space
    holds no rows yet), its name is free or absent and, for a composite,
    its style is not "classic".  A cube or cuboid always fits. *)
Theorem insert_returns (op : insertion) (s : Space) :
  0 < length (cuboid_coordinates s) ->
  primitive_counter s <= length (cuboid_coordinates s) ->
  rows_of op <> [] ->
  primitive_counter s + length (rows_of op)
    <= 2 * length (cuboid_coordinates s)
  \/ primitive_counter s = 0 ->
  (forall n, name_of op = Some n -> cuboid_names s !! n = None) ->
  (forall c, op = AddComposite c -> comp_style c <> "classic") ->
  snd (insert op s) = Ok tt.
Proof.
  intros H0 Hpc Hrows Hfit Hfree Hstyle.
  destruct (insert op s) as [s' r] eqn:H. cbn [snd].
  destruct op as [c | c | c]; cbn [insert rows_of name_of length] in *.
  1, 2: pose proof (add_cube_inv _ _ _ _ H) as (_ & _ & _ & Hinv);
    apply add_cube_room in H as (_ & _ & _ & Hr); try assumption;
    destruct r as [[] | e |]; [reflexivity | | destruct Hr];
    destruct Hr as [-> _];
    destruct Hinv as [_ [(_ & _ & n & Hn & Hb) | [E _]]]; [| discriminate];
    rewrite (Hfree n Hn) in Hb; destruct Hb; discriminate.
  apply add_composite_room in H as (_ & _ & _ & Hr); try assumption.
  destruct r as [[] | e |]; [reflexivity | | destruct Hr].
  exfalso.
  destruct Hr as [_ [(_ & E) | [(_ & cap & Hcap & Hlt)
                 | [(_ & Hst) | (_ & n & Hn & Hb)]]]].
  - contradiction.
  - apply composite_capacity_Some in Hcap as [Hc1 Hc2].
    destruct (Nat.le_gt_cases (length (cuboid_coordinates s))
                (primitive_counter s + length (comp_faces c))) as [L | L];
      [apply Hc2 in L |]; lia.
  - exact (Hstyle c eq_refl Hst).
  - rewrite (Hfree n Hn) in Hb. destruct Hb; discriminate.
Qed.

Lemma insert_returns_witness :
  snd (insert (AddComposite (row_composite 100 0 "default" (Some "big"))) init)
  = Ok tt.
Proof.
  apply insert_returns.
  - vm_compute. lia.
  - vm_compute. lia.
  - discriminate.
  - right. reflexivity.
  - intros n Hn. apply lookup_empty.
  - intros c E. inversion E. discriminate.
Defined.

(** ** Growth of the coordinate array *)

Lemma double_until_least (fuel current k n : nat) :
  double_until fuel current k = Some n -> n = current \/ n < k.
Proof.
  revert current. induction fuel as [| fuel IH]; intros current;
    cbn [double_until]; destruct (Nat.ltb_spec (2 * current) k) as [L | L];
    intros H; try discriminate; try (inversion H; auto; fail).
  apply IH in H as [-> | H]; right; lia.
Qed.

Lemma composite_capacity_bound (current base k cap : nat) :
  composite_capacity current base k = Some cap ->
  cap = current \/ (current <= base + k /\ cap <= 2 * (base + k)).
Proof.
  unfold composite_capacity.
  destruct (Nat.leb_spec current (base + k)) as [L | L].
  - destruct (double_until k current k) as [n |] eqn:Hd; [| discriminate].
    cbn [option_map]. intros H; inversion H; subst cap.
    apply double_until_least in Hd as [-> | Hd]; right; lia.
  - intros H; inversion H. now left.
Qed.

(** X9: an insertion into a non-empty array never shrinks it, and resizes
    it only when the new rows reach its end, to at most twice the rows the
    space then counts with the new ones: whether the call returns or
    raises. *)
Theorem array_growth_bounded (op : insertion) (s : Space) :
  0 < length (cuboid_coordinates s) ->
  length (cuboid_coordinates s) <= length (cuboid_coordinates (fst (insert op s)))
  /\ (length (cuboid_coordinates (fst (insert op s)))
      = length (cuboid_coordinates s)
      \/ (length (cuboid_coordinates s)
            <= primitive_counter s + length (rows_of op)
          /\ length (cuboid_coordinates (fst (insert op s)))
             <= 2 * (primitive_counter s + length (rows_of op)))).
Proof.
  intros H0. destruct (insert op s) as [s' r] eqn:H. cbn [fst].
  assert (Hcube : forall c, add_cube c s = (s', r) ->
            length (cuboid_coordinates s') = length (cube_array s)).
  { intros c Hc. apply add_cube_stores in Hc.
    destruct r as [[] | e |]; [| | destruct Hc].
    - destruct Hc as (_ & -> & _). apply length_insert.
    - destruct Hc as [(_ & _ & -> & _) | (_ & _ & -> & _)];
        [reflexivity | apply length_insert]. }
  destruct op as [c | c | c]; cbn [insert rows_of length] in *.
  1, 2: rewrite (Hcube c H); unfold cube_array;
    destruct (Nat.leb_spec (length (cuboid_coordinates s))
                           (primitive_counter s));
    [rewrite length_resize; split; [lia | right; lia] | split; [lia | now left]].
  clear Hcube. destruct (comp_faces c) as [| f rest] eqn:Hf.
  { pose proof (add_composite_empty c s Hf) as (_ & Hc & _).
    rewrite H in Hc. cbn [fst] in Hc. rewrite Hc. split; [lia | now left]. }
  rewrite <- Hf in *.
  assert (Hne : comp_faces c <> []) by congruence.
  apply add_composite_stores in H; [| exact Hne]. cbv zeta in H.
  assert (Ha : exists a, composite_array s (length (comp_faces c)) = Some a
                         /\ length (cuboid_coordinates s') = length a).
  { destruct r as [[] | e |]; [| | lia];
      destruct H as (a & Ha & [(_ & _ & Hc & _) | (Hw & _)]); exists a;
      (split; [exact Ha |]);
      try (rewrite Hc; reflexivity);
      exact (array_setslice_length _ _ _ _ Hne Hw). }
  destruct Ha as (a & Ha & ->).
  destruct (composite_array_prefix _ _ _ Ha) as [Hlen _].
  split; [exact Hlen |].
  apply composite_array_capacity, composite_capacity_bound in Ha. lia.
Qed.

Lemma array_growth_bounded_witness :
  length (cuboid_coordinates space_nine)
  <= length (cuboid_coordinates (fst (insert (AddComposite twelve) space_nine)))
  /\ (length (cuboid_coordinates (fst (insert (AddComposite twelve) space_nine)))
      = length (cuboid_coordinates space_nine)
      \/ (length (cuboid_coordinates space_nine)
            <= primitive_counter space_nine
               + length (rows_of (AddComposite twelve))
          /\ length (cuboid_coordinates
                       (fst (insert (AddComposite twelve) space_nine)))
             <= 2 * (primitive_counter space_nine
                     + length (rows_of (AddComposite twelve))))).
Proof.
  apply (array_growth_bounded (AddComposite twelve) space_nine).
  vm_compute. lia.
Defined.

(** ** Mutation of the visual metadata *)

Lemma lookup_repeat {A} (v : A) (n i : nat) :
  i < n -> repeat v n !! i = Some v.
Proof.
  revert i. induction n as [| n IH]; intros [| i] H; cbn; try lia; auto.
  apply IH. lia.
Qed.

Lemma list_setslice_fill {A} (l : list A) (c : slice) (v : A) :
  stop c <= length l ->
  length (list_setslice l c (repeat v (stop c - start c))) = length l
  /\ forall i,
       list_setslice l c (repeat v (stop c - start c)) !! i
       = if (start c <=? i) && (i <? stop c) then Some v else l !! i.
Proof.
  intros Hstop. unfold list_setslice.
  destruct (Nat.le_gt_cases (start c) (stop c)) as [L | L].
  - rewrite (Nat.min_l (start c)) by lia. rewrite (Nat.min_l (stop c)) by lia.
    rewrite Nat.max_r by lia. split.
    + rewrite !length_app, length_take, repeat_length, length_drop. lia.
    + intros i.
      destruct (Nat.leb_spec (start c) i) as [L1 | L1]; cbn [andb].
      * destruct (Nat.ltb_spec i (stop c)) as [L2 | L2].
        -- rewrite lookup_app_r by (rewrite length_take; lia).
           rewrite length_take, Nat.min_l by lia.
           rewrite lookup_app_l by (rewrite repeat_length; lia).
           apply lookup_repeat. lia.
        -- rewrite lookup_app_r by (rewrite length_take; lia).
           rewrite length_take, Nat.min_l by lia.
           rewrite lookup_app_r by (rewrite repeat_length; lia).
           rewrite repeat_length, lookup_drop. f_equal. lia.
      * rewrite lookup_app_l by (rewrite length_take; lia).
        apply lookup_take_lt. lia.
  - replace (stop c - start c) with 0 by lia. cbn [repeat app].
    rewrite Nat.max_l by lia. rewrite take_drop. split; [reflexivity |].
    intros i. destruct (Nat.leb_spec (start c) i); cbn [andb]; [| reflexivity].
    destruct (Nat.ltb_spec i (stop c)); [lia | reflexivity].
Qed.

Lemma set_visual_id (s : Space) (key : string) (l : list pyval) :
  cuboid_visual_metadata s !! key = Some l ->
  s = set_cuboid_visual_metadata (<[key := l]> (cuboid_visual_metadata s)) s.
Proof. intros H. rewrite (insert_id _ _ _ H). destruct s; reflexivity. Qed.

Lemma visual_setitem_loop (ps : list nat) (key : string) (v : pyval)
    (s s' : Space) (l : list pyval) :
  cuboid_visual_metadata s !! key = Some l ->
  for_each ps (fun p => visual_setitem key p v) s = (s', Ok tt) ->
  exists l',
    s' = set_cuboid_visual_metadata
           (<[key := l']> (cuboid_visual_metadata s)) s
    /\ length l' = length l
    /\ forall i, l' !! i = if existsb (Nat.eqb i) ps then Some v else l !! i.
Proof.
  revert s l. induction ps as [| p ps IH]; intros s l Hl H; cbn [for_each] in H.
  - unfold ret in H. inv_pair. exists l.
    split; [now apply set_visual_id |]. split; reflexivity.
  - apply bind_inv in H as [(s1 & [] & H1 & H) | [(e & _ & E) | [_ E]]];
      try discriminate.
    unfold visual_setitem in H1. rewrite Hl in H1.
    destruct (Nat.ltb_spec p (length l)) as [Hp | Hp]; [| discriminate].
    inv_pair.
    apply (IH _ (<[p := v]> l)) in H;
      [| simpl_space; apply lookup_insert_eq].
    destruct H as (l' & -> & Hlen & Hlook). simpl_space.
    exists l'. rewrite insert_insert_eq.
    split; [reflexivity |]. split; [now rewrite Hlen, length_insert |].
    intros i. rewrite Hlook. cbn [existsb].
    destruct (Nat.eqb_spec i p) as [-> | Hne]; cbn [orb].
    + destruct (existsb _ ps); [reflexivity |].
      now apply list_lookup_insert_eq.
    + destruct (existsb _ ps); [reflexivity |].
      apply list_lookup_insert_ne. congruence.
Qed.

Lemma visual_setslice_loop (cs : list slice) (key : string) (v : pyval)
    (s s' : Space) (l : list pyval) :
  cuboid_visual_metadata s !! key = Some l ->
  (forall c, In c cs -> stop c <= length l) ->
  for_each cs (fun c => visual_setslice key c v) s = (s', Ok tt) ->
  exists l',
    s' = set_cuboid_visual_metadata
           (<[key := l']> (cuboid_visual_metadata s)) s
    /\ length l' = length l
    /\ forall i,
         l' !! i
         = if existsb (fun c => (start c <=? i) && (i <? stop c)) cs
           then Some v else l !! i.
Proof.
  revert s l. induction cs as [| c cs IH]; intros s l Hl Hin H;
    cbn [for_each] in H.
  - unfold ret in H. inv_pair. exists l.
    split; [now apply set_visual_id |]. split; reflexivity.
  - apply bind_inv in H as [(s1 & [] & H1 & H) | [(e & _ & E) | [_ E]]];
      try discriminate.
    unfold visual_setslice in H1. rewrite Hl in H1. inv_pair.
    destruct (list_setslice_fill l c v) as [Hlen1 Hlook1];
      [apply Hin; now left |].
    apply (IH _ (list_setslice l c (repeat v (stop c - start c)))) in H;
      [| simpl_space; apply lookup_insert_eq
       | intros c' Hc'; rewrite Hlen1; apply Hin; now right].
    destruct H as (l' & -> & Hlen & Hlook). simpl_space.
    exists l'. rewrite insert_insert_eq.
    split; [reflexivity |]. split; [now rewrite Hlen |].
    intros i. rewrite Hlook, Hlook1. cbn [existsb].
    destruct ((start c <=? i) && (i <? stop c)); cbn [orb];
      destruct (existsb _ cs); reflexivity.
Qed.

Lemma mutate_key_ok (ps : list nat) (cs : list slice) (key : string)
    (v : pyval) (s s' : Space) :
  mutate_key ps cs (key, v) s = (s', Ok tt) ->
  (forall l c, cuboid_visual_metadata s !! key = Some l -> In c cs ->
               stop c <= length l) ->
  exists l l',
    cuboid_visual_metadata s !! key = Some l
    /\ s' = set_cuboid_visual_metadata
              (<[key := l']> (cuboid_visual_metadata s)) s
    /\ length l' = length l
    /\ forall i, l' !! i = if selectedb ps cs i then Some v else l !! i.
Proof.
  unfold mutate_key. cbn [fst snd]. intros H Hin.
  apply bind_inv in H as [(s0 & known & H0 & H) | [(e & _ & E) | [_ E]]];
    try discriminate.
  unfold gets in H0. inv_pair.
  destruct (cuboid_visual_metadata s0 !! key) as [l |] eqn:Hl;
    [| discriminate].
  apply bind_inv in H as [(s1 & [] & H1 & H) | [(e & _ & E) | [_ E]]];
    try discriminate.
  apply (visual_setitem_loop _ _ _ _ _ l Hl) in H1
    as (l1 & -> & Hlen1 & Hlook1).
  apply (visual_setslice_loop _ _ _ _ _ l1) in H;
    [| simpl_space; apply lookup_insert_eq
     | intros c Hc; rewrite Hlen1; now apply (Hin l)].
  destruct H as (l' & -> & Hlen & Hlook). simpl_space.
  exists l, l'. rewrite insert_insert_eq.
  split; [reflexivity |]. split; [reflexivity |].
  split; [now rewrite Hlen |].
  intros i. rewrite Hlook, Hlook1. unfold selectedb.
  destruct (existsb (Nat.eqb i) ps); cbn [orb];
    destruct (existsb _ cs); reflexivity.
Qed.

(** X10: when [_mutate_by_ids] returns, for property names given once each
    and composite ranges that end within the property lists, every named
    property has, at each selected entry (a selected primitive id, or an id
    within a selected range), the new value, and at every other entry the
    old one, its list as long as before; properties not named are as they
    were. *)
Theorem mutation_overwrites_selected (ps : list nat) (cs : list slice)
    (kwargs : list (string * pyval)) (s s' : Space) :
  _mutate_by_ids ps cs kwargs s = (s', Ok tt) ->
  List.NoDup (map fst kwargs) ->
  (forall key l c,
     In key (map fst kwargs) -> cuboid_visual_metadata s !! key = Some l ->
     In c cs -> stop c <= length l) ->
  (forall key v,
     In (key, v) kwargs ->
     exists l l',
       cuboid_visual_metadata s !! key = Some l
       /\ cuboid_visual_metadata s' !! key = Some l'
       /\ length l' = length l
       /\ forall i, l' !! i = if selectedb ps cs i then Some v else l !! i)
  /\ (forall key,
        ~ In key (map fst kwargs) ->
        cuboid_visual_metadata s' !! key = cuboid_visual_metadata s !! key).
Proof.
  unfold _mutate_by_ids. revert s.
  induction kwargs as [| [k v] rest IH]; intros s H Hnd Hin;
    cbn [for_each map fst] in *.
  - unfold ret in H. inv_pair. split.
    + intros key v Hf. destruct Hf.
    + reflexivity.
  - apply bind_inv in H as [(s1 & [] & H1 & H) | [(e & _ & E) | [_ E]]];
      try discriminate.
    apply List.NoDup_cons_iff in Hnd as [Hk Hnd].
    apply mutate_key_ok in H1;
      [| intros l c Hl Hc; apply (Hin k l c); [now left | exact Hl | exact Hc]].
    destruct H1 as (l & l' & Hl & -> & Hlen & Hlook).
    apply IH in H; [| exact Hnd |].
    2: { intros key l0 c Hkey Hl0 Hc. simpl_space.
         rewrite lookup_insert_ne in Hl0 by (intros ->; contradiction).
         apply (Hin key l0 c); [right; exact Hkey | exact Hl0 | exact Hc]. }
    destruct H as [Hset Hframe]. simpl_space. split.
    + intros key v0 [E | Hkv].
      * inversion E; subst key v0. exists l, l'.
        rewrite (Hframe k Hk), lookup_insert_eq. auto.
      * destruct (Hset key v0 Hkv) as (l0 & l0' & Hl0 & Hl0' & Hlen0 & Hlook0).
        assert (Hne : k <> key).
        { intros ->. apply Hk. apply in_map_iff. exists (key, v0). auto. }
        rewrite lookup_insert_ne in Hl0 by exact Hne.
        exists l0, l0'. auto.
    + intros key Hkey.
      assert (Hne : k <> key) by (intros E; apply Hkey; now left).
      assert (Hni : ~ In key (map fst rest))
        by (intros E; apply Hkey; now right).
      rewrite (Hframe key Hni). now apply lookup_insert_ne.
Qed.

Lemma mutation_overwrites_selected_witness :
  exists l l',
    cuboid_visual_metadata space_ab !! "alpha" = Some l
    /\ cuboid_visual_metadata
         (fst (_mutate_by_ids [1] [] [("alpha", VFloat 1)] space_ab))
         !! "alpha" = Some l'
    /\ length l' = length l
    /\ forall i, l' !! i = if selectedb [1] [] i then Some (VFloat 1)
                           else l !! i.
Proof.
  destruct (mutation_overwrites_selected [1] [] [("alpha", VFloat 1)]
              space_ab
              (fst (_mutate_by_ids [1] [] [("alpha", VFloat 1)] space_ab)))
    as [H _].
  - vm_compute. reflexivity.
  - repeat constructor. intros Hf. destruct Hf.
  - intros key l c _ _ Hf. destruct Hf.
  - apply (H "alpha" (VFloat 1)). left. reflexivity.
Defined.

(** ** Alignment of the visual metadata *)

Lemma extend_visual_fold (k : nat) (kvs : list (string * pyval))
    (m : gmap string (list pyval)) :
  List.NoDup (map fst kvs) ->
  forall key,
    (~ In key (map fst kvs) ->
     fold_left (extend_visual k) kvs m !! key = m !! key)
    /\ (In key (map fst kvs) ->
        exists l', fold_left (extend_visual k) kvs m !! key = Some l'
                   /\ length l' = length (default [] (m !! key)) + k).
Proof.
  revert m. induction kvs as [| [k0 v0] kvs IH]; intros m Hnd key;
    cbn [map fst fold_left] in *.
  - split; [reflexivity | intros Hf; destruct Hf].
  - apply List.NoDup_cons_iff in Hnd as [Hk0 Hnd].
    specialize (IH (extend_visual k m (k0, v0)) Hnd key) as [IH1 IH2].
    assert (Hother : k0 <> key ->
              extend_visual k m (k0, v0) !! key = m !! key).
    { intros Hne. unfold extend_visual. cbn [fst snd].
      destruct (m !! k0); now apply lookup_insert_ne. }
    split.
    + intros Hni.
      assert (Hne : k0 <> key) by (intros E; apply Hni; now left).
      rewrite IH1 by (intros E; apply Hni; now right). now apply Hother.
    + intros [-> | Hin].
      * rewrite (IH1 Hk0). unfold extend_visual. cbn [fst snd].
        destruct (m !! key) as [l |] eqn:E; rewrite lookup_insert_eq;
          eexists; (split; [reflexivity |]); cbn [default];
          rewrite ?length_app, repeat_length; reflexivity.
      * destruct (IH2 Hin) as (l' & Hl' & Hlen). exists l'.
        split; [exact Hl' |]. rewrite Hlen, Hother; [reflexivity |].
        intros ->. contradiction.
Qed.

Lemma insert_ok_visual (op : insertion) (s s' : Space) :
  insert op s = (s', Ok tt) ->
  0 < length (rows_of op)
  /\ cuboid_visual_metadata s' =
       fold_left (extend_visual (length (rows_of op))) (visual_of op)
                 (cuboid_visual_metadata s).
Proof.
  destruct op as [c | c | c]; cbn [insert rows_of visual_of length]; intros H.
  1, 2: apply add_cube_stores in H as (_ & _ & -> & _); split; [lia |];
    reflexivity.
  destruct (comp_faces c) as [| f rest] eqn:Hf.
  { pose proof (add_composite_empty c s Hf) as [He _].
    rewrite H in He. discriminate. }
  rewrite <- Hf in *.
  apply add_composite_stores in H; [| congruence]. cbv zeta in H.
  destruct H as (a & _ & [(E & _) | (_ & Hv & _)]); [discriminate |].
  split; [rewrite Hf; cbn [length]; lia | exact Hv].
Qed.

(** X11: an insertion that returns, of an object whose property names are
    distinct, into a space where every property has one value per
    primitive id, leaves such a space exactly when the object carries every
    property the space knows and, unless the space holds no rows yet,
    introduces none. *)
Theorem visual_alignment (op : insertion) (s s' : Space) :
  insert op s = (s', Ok tt) ->
  List.NoDup (map fst (visual_of op)) ->
  visual_aligned s ->
  visual_aligned s'
  <-> (forall key, is_Some (cuboid_visual_metadata s !! key) ->
                   In key (map fst (visual_of op)))
      /\ (primitive_counter s = 0
          \/ forall key, In key (map fst (visual_of op)) ->
                         is_Some (cuboid_visual_metadata s !! key)).
Proof.
  intros H Hnd Hal.
  pose proof (insert_ok _ _ _ H) as (_ & _ & _ & Hp & _).
  destruct (insert_ok_visual _ _ _ H) as [Hk Hv].
  pose proof (extend_visual_fold (length (rows_of op)) (visual_of op)
                (cuboid_visual_metadata s) Hnd) as Hfold.
  rewrite <- Hv in Hfold. unfold visual_aligned in *. split.
  - intros Hal'. split.
    + intros key [l Hl].
      destruct (in_dec string_dec key (map fst (visual_of op))) as [Hin | Hni];
        [exact Hin | exfalso].
      destruct (Hfold key) as [Hsame _]. specialize (Hsame Hni).
      rewrite Hl in Hsame. apply Hal' in Hsame. apply Hal in Hl. lia.
    + destruct (primitive_counter s) as [| pc] eqn:Hpc; [now left | right].
      intros key Hin. destruct (Hfold key) as [_ Hnew].
      destruct (Hnew Hin) as (l' & Hl' & Hlen). apply Hal' in Hl'.
      destruct (cuboid_visual_metadata s !! key) as [l |]; [eauto |].
      cbn in Hlen. lia.
  - intros [Hknown Hnew] key l' Hl'.
    destruct (in_dec string_dec key (map fst (visual_of op))) as [Hin | Hni].
    + destruct (Hfold key) as [_ Hext].
      destruct (Hext Hin) as (l1 & Hl1 & Hlen).
      rewrite Hl' in Hl1. inversion Hl1; subst l1.
      destruct (cuboid_visual_metadata s !! key) as [l |] eqn:Hl.
      * apply Hal in Hl. cbn in Hlen. lia.
      * cbn in Hlen.
        destruct Hnew as [Hz | Hall]; [lia |].
        destruct (Hall key Hin) as [l Hl2]. congruence.
    + destruct (Hfold key) as [Hsame _]. rewrite (Hsame Hni) in Hl'.
      exfalso. apply Hni, Hknown. eauto.
Qed.

Lemma init_visual (key : string) : cuboid_visual_metadata init !! key = None.
Proof. apply lookup_empty. Qed.

Lemma visual_alignment_witness : visual_aligned space_a.
Proof.
  apply (visual_alignment (AddCube cube_a) init space_a).
  - vm_compute. reflexivity.
  - vm_compute. repeat constructor; cbn; intuition discriminate.
  - intros key l E. rewrite init_visual in E. discriminate.
  - split.
    + intros key [l E]. rewrite init_visual in E. discriminate.
    + left. reflexivity.
Defined.

Lemma run_inserts_aligned (ops : list insertion) (K : list string)
    (s0 s : Space) :
  run (map insert ops) s0 = (s, Ok tt) ->
  (forall op, In op ops ->
     List.NoDup (map fst (visual_of op))
     /\ forall key, In key (map fst (visual_of op)) <-> In key K) ->
  visual_aligned s0 ->
  (forall key, is_Some (cuboid_visual_metadata s0 !! key) -> In key K) ->
  (primitive_counter s0 = 0
   \/ forall key, In key K -> is_Some (cuboid_visual_metadata s0 !! key)) ->
  visual_aligned s.
Proof.
  revert s0. induction ops as [| op ops IH]; intros s0 H Hops Hal Hknown Hall;
    cbn [map run] in H.
  - unfold ret in H. now inv_pair.
  - apply bind_inv in H as [(s1 & [] & H1 & H) | [(e & _ & E) | [_ E]]];
      try discriminate.
    destruct (Hops op (or_introl eq_refl)) as [Hnd HK].
    pose proof (insert_ok _ _ _ H1) as (_ & _ & _ & Hp & _).
    destruct (insert_ok_visual _ _ _ H1) as [Hk Hv].
    pose proof (extend_visual_fold (length (rows_of op)) (visual_of op)
                  (cuboid_visual_metadata s0) Hnd) as Hfold.
    rewrite <- Hv in Hfold.
    apply (IH s1 H).
    + intros op' Hop'. apply Hops. now right.
    + apply (visual_alignment op s0 s1 H1 Hnd Hal). split.
      * intros key Hkey. apply HK, Hknown, Hkey.
      * destruct Hall as [Hz | Hall]; [now left | right].
        intros key Hkey. apply Hall, HK, Hkey.
    + intros key [l Hl].
      destruct (in_dec string_dec key (map fst (visual_of op))) as [Hin | Hni];
        [now apply HK |].
      destruct (Hfold key) as [Hsame _]. rewrite (Hsame Hni) in Hl.
      apply Hknown. eauto.
    + right. intros key Hkey. apply HK in Hkey.
      destruct (Hfold key) as [_ Hext].
      destruct (Hext Hkey) as (l' & Hl' & _). eauto.
Qed.

(** X12: when a sequence of insertions into a new space has all returned and
    every object carried the same property names, each once, every
    property has one value per primitive id. *)
Theorem uniform_properties_stay_aligned (ops : list insertion)
    (K : list string) (s : Space) :
  run (map insert ops) init = (s, Ok tt) ->
  (forall op, In op ops ->
     List.NoDup (map fst (visual_of op))
     /\ forall key, In key (map fst (visual_of op)) <-> In key K) ->
  visual_aligned s.
Proof.
  intros H Hops. apply (run_inserts_aligned ops K init s H Hops).
  - intros key l E. rewrite init_visual in E. discriminate.
  - intros key [l E]. rewrite init_visual in E. discriminate.
  - left. reflexivity.
Qed.

Lemma uniform_properties_stay_aligned_witness :
  visual_aligned
    (fst (run (map insert [AddCube cube_a; AddComposite twelve]) init)).
Proof.
  apply (uniform_properties_stay_aligned
           [AddCube cube_a; AddComposite twelve]
           (map fst default_visual)).
  - vm_compute. reflexivity.
  - intros op [<- | [<- | []]]; (split; [| reflexivity]);
      vm_compute; repeat constructor; cbn; intuition discriminate.
Defined.

(** ** Selection by coordinate gathers only matches *)

Lemma matching_base_vectors_spec (coords : list faces) (coordinate : vec3)
    (idxs found : list nat) :
  matching_base_vectors coords coordinate idxs = Some found ->
  forall i,
    In i found
    <-> In i idxs
        /\ exists f, coords !! i = Some f
                     /\ array_equal (q0 (f0 f)) coordinate = true.
Proof.
  revert found. induction idxs as [| idx rest IH]; intros found H i;
    cbn [matching_base_vectors] in H.
  - inversion H. split; [intros Hf; destruct Hf | intros [Hf _]; destruct Hf].
  - destruct (coords !! idx) as [f |] eqn:Hrow; [| discriminate].
    destruct (matching_base_vectors coords coordinate rest) as [found' |];
      [| discriminate].
    specialize (IH found' eq_refl i).
    destruct (array_equal (q0 (f0 f)) coordinate) eqn:Heq;
      inversion H; subst found; cbn [In]; rewrite ?IH; split.
    + intros [<- | [Hin Hm]]; [split; [now left | eauto] | split; [now right | exact Hm]].
    + intros [[<- | Hin] Hm]; [now left | right; auto].
    + intros [Hin Hm]. split; [now right | exact Hm].
    + intros [[<- | Hin] (f' & Hf' & Hm)]; [congruence | eauto].
Qed.

Lemma head_In {A} (l : list A) (x : A) : head l = Some x -> In x l.
Proof. destruct l; cbn; [discriminate | intros E; inversion E; now left]. Qed.

Lemma walk_step_sound (index : SpaceIndex.t) (matching : list nat)
    (w : walk) (idx : nat) :
  In idx matching -> walk_sound index matching w ->
  walk_sound index matching (walk_step index w idx).
Proof.
  intros Hidx Hw. unfold walk_step. cbv zeta.
  set (w1 := match primitive_id w with Some _ => _ | None => _ end).
  assert (H1 : walk_sound index matching w1).
  { subst w1. pose proof Hw as (Hp & Hc & Hps & Hcs).
    destruct (primitive_id w) as [p |] eqn:Ep; [| exact Hw].
    destruct (Nat.eqb_spec p idx) as [-> | Hne]; [| exact Hw].
    unfold walk_sound.
    cbn [primitive_id composite_slice primitives_to_update
         composites_to_update].
    split; [intros p; apply head_In |]. split; [exact Hc |].
    split; [| exact Hcs].
    intros p Hin. apply in_app_or in Hin as [Hin | [<- | []]]; auto. }
  clearbody w1. clear Hw. pose proof H1 as (Hp1 & Hc1 & Hps1 & Hcs1).
  destruct (composite_slice w1) as [c |] eqn:Ec; [| exact H1].
  destruct (Nat.eqb_spec (start c) idx) as [E | Hne]; [| exact H1].
  unfold walk_sound.
  cbn [primitive_id composite_slice primitives_to_update composites_to_update].
  split; [exact Hp1 |]. split; [intros c'; apply head_In |].
  split; [exact Hps1 |].
  intros c' Hin. apply in_app_or in Hin as [Hin | [<- | []]]; auto.
  rewrite E. auto.
Qed.

Lemma walk_fold_sound (index : SpaceIndex.t) (matching l : list nat)
    (w : walk) :
  (forall x, In x l -> In x matching) -> walk_sound index matching w ->
  walk_sound index matching (fold_left (walk_step index) l w).
Proof.
  revert w. induction l as [| x l IH]; intros w Hl Hw; cbn [fold_left];
    [exact Hw |].
  apply IH; [intros y Hy; apply Hl; now right |].
  apply walk_step_sound; [apply Hl; now left | exact Hw].
Qed.

(** X13: when selection by coordinate returns, the coordinate had three
    components (w, h, d); every primitive id it gives is a registered
    primitive below [primitive_counter] whose first vertex of its first
    face equals (w, d, h), and every range it gives is a registered
    composite whose first row is such a row. *)
Theorem select_by_coordinate_sound (coordinate : list float) (s : Space)
    (ps : list nat) (cs : list slice) :
  snd (_select_by_coordinate coordinate s) = Ok (ps, cs) ->
  exists w h d,
    coordinate = [w; h; d]
    /\ (forall p, In p ps ->
          p < primitive_counter s
          /\ In p (SpaceIndex.primitives (cuboid_index s))
          /\ exists f, cuboid_coordinates s !! p = Some f
                       /\ array_equal (q0 (f0 f)) (Vec3 w d h) = true)
    /\ (forall c, In c cs ->
          start c < primitive_counter s
          /\ In c (SpaceIndex.composites (cuboid_index s))
          /\ exists f, cuboid_coordinates s !! start c = Some f
                       /\ array_equal (q0 (f0 f)) (Vec3 w d h) = true).
Proof.
  unfold _select_by_coordinate.
  destruct coordinate as [| w [| h [| d [| ? ?]]]]; try discriminate.
  destruct (matching_base_vectors _ _ _) as [matching |] eqn:Hm;
    [| discriminate].
  cbn [snd]. intros H. inversion H as [[Hps Hcs]]. clear H.
  exists w, h, d. split; [reflexivity |].
  pose proof (matching_base_vectors_spec _ _ _ _ Hm) as Hspec.
  match goal with
  | _ : primitives_to_update (fold_left _ _ ?w0) = _ |- _ =>
      assert (Hw : walk_sound (cuboid_index s) matching
                     (fold_left (walk_step (cuboid_index s)) matching w0))
  end.
  { apply walk_fold_sound; [auto |].
    unfold walk_sound.
    cbn [primitive_id composite_slice primitives_to_update
         composites_to_update].
    split; [intros p; apply head_In |].
    split; [intros c; apply head_In |].
    split; intros x Hf; destruct Hf. }
  destruct Hw as (_ & _ & Hwp & Hwc). subst ps cs.
  split.
  - intros p Hin. destruct (Hwp p Hin) as [Hmatch Hreg].
    apply Hspec in Hmatch as [Hseq Hrow]. apply in_seq in Hseq.
    split; [lia |]. split; assumption.
  - intros c Hin. destruct (Hwc c Hin) as [Hmatch Hreg].
    apply Hspec in Hmatch as [Hseq Hrow]. apply in_seq in Hseq.
    split; [lia |]. split; assumption.
Qed.

Lemma select_by_coordinate_sound_witness :
  exists w h d,
    [0; 0; 0]%float = [w; h; d]
    /\ (forall p, In p [0] ->
          p < primitive_counter space_ab
          /\ In p (SpaceIndex.primitives (cuboid_index space_ab))
          /\ exists f, cuboid_coordinates space_ab !! p = Some f
                       /\ array_equal (q0 (f0 f)) (Vec3 w d h) = true)
    /\ (forall c, In c [] ->
          start c < primitive_counter space_ab
          /\ In c (SpaceIndex.composites (cuboid_index space_ab))
          /\ exists f, cuboid_coordinates space_ab !! start c = Some f
                       /\ array_equal (q0 (f0 f)) (Vec3 w d h) = true).
Proof.
  apply (select_by_coordinate_sound [0; 0; 0]%float space_ab [0] []).
  vm_compute. reflexivity.
Defined.

(** ** Creation by offset *)

(** X14: [create_by_offset] leaves the space as it is, however it ends;
    given none or more than one of the four selectors it raises
    [ValueError] without selecting; and given the name alone it prints
    what the name resolves to, or raises as the resolution does. *)
Theorem create_by_offset_one_selector (offset : vec3)
    (coordinate : option (list float)) (name : option string)
    (timestep scene : option Z) (kwargs : list (string * pyval))
    (s : Space) :
  fst (create_by_offset offset coordinate name timestep scene kwargs s) = s
  /\ (is_not_None coordinate + is_not_None name + is_not_None timestep
      + is_not_None scene <> 1 ->
      snd (create_by_offset offset coordinate name timestep scene kwargs s)
      = Raise ValueError)
  /\ (forall n,
        coordinate = None -> name = Some n -> timestep = None ->
        scene = None ->
        snd (create_by_offset offset coordinate name timestep scene kwargs s)
        = match cuboid_names s !! n with
          | Some (primitive_ids, composite_ids) =>
              Ok (PrintedSelection (default [] primitive_ids,
                                    default [] composite_ids))
          | None => Raise ValueError
          end).
Proof.
  split; [apply create_by_offset_read_only |]. split.
  - intros Hcount. unfold create_by_offset.
    destruct (Nat.eqb_spec (is_not_None coordinate + is_not_None name
                            + is_not_None timestep + is_not_None scene) 1)
      as [E | E]; [contradiction | reflexivity].
  - intros n -> -> -> ->. unfold create_by_offset, _select_by_name, bind, ret.
    cbn. destruct (cuboid_names s !! n) as [[p q] |]; reflexivity.
Qed.

Lemma create_by_offset_one_selector_witness :
  snd (create_by_offset vzero (Some [0; 0; 0]%float) (Some "a") None None []
         space_a) = Raise ValueError
  /\ snd (create_by_offset vzero None (Some "a") None None [] space_a)
     = Ok (PrintedSelection ([0], [])).
Proof.
  destruct (create_by_offset_one_selector vzero (Some [0; 0; 0]%float)
              (Some "a") None None [] space_a) as (_ & H & _).
  destruct (create_by_offset_one_selector vzero None (Some "a") None None []
              space_a) as (_ & _ & H').
  split.
  - apply H. cbn. lia.
  - rewrite (H' "a" eq_refl eq_refl eq_refl eq_refl). vm_compute. reflexivity.
Defined.

(** ** The running sum *)

Lemma run_inserts_total (ops : list insertion) (s0 s : Space) :
  run (map insert ops) s0 = (s, Ok tt) ->
  total s = fold_left vadd (map centroid_of ops) (total s0).
Proof.
  revert s0. induction ops as [| op ops IH]; intros s0 H;
    cbn [map run fold_left] in *.
  - unfold ret in H. now inv_pair.
  - apply bind_inv in H as [(s1 & [] & H1 & H) | [(e & _ & E) | [_ E]]];
      try discriminate.
    apply insert_ok in H1 as ((Htot & _) & _).
    rewrite (IH _ H), Htot. reflexivity.
Qed.

(** X15: when a sequence of insertions into a new space has all returned,
    [total] is the sum of the objects' centroids, added in the order
    inserted starting from zero, a composite counting once. *)
Theorem total_is_running_sum (ops : list insertion) (s : Space) :
  run (map insert ops) init = (s, Ok tt) ->
  total s = fold_left vadd (map centroid_of ops) vzero.
Proof. intros H. now apply run_inserts_total in H. Qed.

Lemma total_is_running_sum_witness :
  total (fst (run (map insert [AddCube cube_a; AddComposite twelve]) init))
  = fold_left vadd (map centroid_of [AddCube cube_a; AddComposite twelve])
              vzero.
Proof.
  apply (total_is_running_sum [AddCube cube_a; AddComposite twelve]).
  vm_compute. reflexivity.
Defined.

(** ** A property introduced late *)

(** X16: a named cube that goes into a space already holding rows
    and brings a property the space does not know leaves that property
    with a single value, at entry 0; a mutation of the new object by its
    name on that property then indexes the list at the object's id, past
    its end, and raises [IndexError], the space unchanged. *)
Theorem late_property_cannot_be_mutated (c : Cube) (s s' : Space)
    (n key : string) (v' : pyval) :
  add_cube c s = (s', Ok tt) ->
  cube_name c = Some n ->
  List.NoDup (map fst (cube_visual_metadata c)) ->
  In key (map fst (cube_visual_metadata c)) ->
  cuboid_visual_metadata s !! key = None ->
  0 < primitive_counter s ->
  (exists l, cuboid_visual_metadata s' !! key = Some l /\ length l = 1)
  /\ mutate_by_name n [(key, v')] s' = (s', Raise IndexError).
Proof.
  intros H Hn Hnd Hkey Hnew Hpc.
  pose proof (insert_ok (AddCube c) _ _ H) as Hok.
  destruct Hok as (_ & _ & _ & _ & _ & _ & _ & Hnames).
  destruct (insert_ok_visual (AddCube c) _ _ H) as [_ Hv].
  cbn [name_of ids_of rows_of visual_of length] in *.
  destruct (extend_visual_fold 1 (cube_visual_metadata c)
              (cuboid_visual_metadata s) Hnd key) as [_ Hext].
  destruct (Hext Hkey) as (l & Hl & Hlen). rewrite <- Hv in Hl.
  rewrite Hnew in Hlen. cbn in Hlen.
  split; [eauto |].
  unfold mutate_by_name, bind, _select_by_name.
  rewrite Hnames, Hn. cbn [named]. rewrite lookup_insert_eq.
  cbn [default fst snd _mutate_by_ids for_each]. unfold _mutate_by_ids.
  cbn [for_each]. unfold mutate_key, bind, gets. cbn [fst snd].
  rewrite Hl. cbv beta. unfold id. cbn [for_each].
  unfold bind, visual_setitem. rewrite Hl.
  destruct (Nat.ltb_spec (primitive_counter s) (length l)); [lia |].
  reflexivity.
Qed.

Lemma late_property_cannot_be_mutated_witness :
  mutate_by_name "h" [("hatch", VNone)] (fst (add_cube cube_hatched space_a))
  = (fst (add_cube cube_hatched space_a), Raise IndexError).
Proof.
  apply (late_property_cannot_be_mutated cube_hatched space_a
           (fst (add_cube cube_hatched space_a)) "h" "hatch" VNone).
  - vm_compute. reflexivity.
  - reflexivity.
  - vm_compute. repeat constructor; cbn; intuition discriminate.
  - vm_compute. do 4 right. left. reflexivity.
  - vm_compute. reflexivity.
  - vm_compute. lia.
Defined.

(** ** Failed calls *)

Lemma add_cube_raise_dims (c : Cube) (s s' : Space) (e : exn) :
  add_cube c s = (s', Raise e) ->
  dims s' = surrounding_box (primitive_counter s) (dims s)
              (cube_bounding_box c).
Proof.
  unfold add_cube. intros H.
  apply bind_inv in H as [(s1 & pid & H1 & H) | [(e1 & H1 & _) | [H1 E]]];
    [| | discriminate];
    apply _add_cuboid_primitive_inv in H1 as (_ & _ & _ & Hdims & H1);
    [| exact Hdims].
  destruct H1 as (-> & Hpc & _ & _ & Hrow).
  apply bind_inv in H as [(s2 & [] & H2 & H) | [(e2 & H2 & _) | [H2 E]]];
    [| | discriminate]; apply _add_name_inv in H2.
  2: { destruct H2 as (_ & -> & _). exact Hdims. }
  assert (Hs2 : dims s2 = dims s1
                /\ cuboid_coordinates s2 = cuboid_coordinates s1).
  { destruct (cube_name c); [destruct H2 as [_ ->] | subst s2];
      split; reflexivity. }
  destruct Hs2 as [Hd2 Hc2].
  apply bind_inv in H as [(s3 & [] & H3 & H) | [(e3 & H3 & _) | [H3 E]]];
    rewrite record_addition_eq in H3; inv_pair.
  match type of H with
  | _update_bounds _ ?st = _ =>
      destruct (_update_bounds_row st (primitive_counter s) (cube_faces c))
        as (g & _ & Hub); [simpl_space; rewrite Hc2; exact Hrow |]
  end.
  rewrite Hub in H. discriminate.
Qed.

Lemma add_composite_raise_dims (c : CompositeCube) (s s' : Space) (e : exn)
    (first : faces) (rest : list faces) :
  add_composite c s = (s', Raise e) ->
  comp_faces c = first :: rest ->
  dims s' = surrounding_box (primitive_counter s) (dims s)
              (composite_extrema first (List.last (comp_faces c) first)).
Proof.
  intros H Hf. revert H. unfold add_composite. rewrite Hf. rewrite <- Hf.
  run_monad.
  match goal with
  | |- context [let (_, _) := ?g ?x in _] =>
      set (st := x); destruct (g st) as [s0 r0] eqn:Hgrow
  end.
  assert (Hg : match r0 with
               | Ok _ => exists a, s0 = set_cuboid_coordinates a st
               | Raise _ => False
               | Diverge => True
               end).
  { destruct (length (cuboid_coordinates s) <=? _).
    - destruct (double_until _ _ _); inv_pair; eauto.
    - inv_pair. exists (cuboid_coordinates s). subst st. reflexivity. }
  clear Hgrow. destruct r0 as [[] | e0 |]; [| destruct Hg | discriminate].
  destruct Hg as (a & ->). simpl_space.
  destruct (array_setslice a _ (comp_faces c)) as [a' |] eqn:Hw.
  2: { intros H; inv_pair. subst st. reflexivity. }
  simpl_space.
  destruct (String.eqb (comp_style c) "classic").
  { intros H; inv_pair. subst st. reflexivity. }
  match goal with
  | |- context [_add_name ?n ?i ?x] =>
      set (s2 := x); destruct (_add_name n i s2) as [s3 r3] eqn:Hname
  end.
  apply _add_name_inv in Hname.
  destruct r3 as [[] | e3 |]; [| | destruct Hname].
  2: { destruct Hname as (_ & -> & _). intros H; inv_pair.
       subst s2 st. reflexivity. }
  assert (Hs3 : dims s3 = dims s2).
  { destruct (comp_name c); [destruct Hname as [_ ->] | subst s3];
      reflexivity. }
  match goal with
  | |- context [_update_bounds ?i ?x] =>
      destruct (_update_bounds i x) as [s4 r4] eqn:Hub
  end.
  apply _update_bounds_inv in Hub. simpl_space.
  intros H; inv_pair. destruct Hub as (_ & -> & _). simpl_space.
  rewrite Hs3. subst s2 st. reflexivity.
Qed.

(** An insertion that raised on its name or on its style: the bookkeeping
    is as before the call, and everything the call wrote before it raised
    is in. *)
Lemma insert_raise_written (op : insertion) (s s' : Space) (e : exn) :
  insert op s = (s', Raise e) ->
  e = PyException \/ e = NotImplementedError ->
  rows_written op s s'
  /\ cuboid_index s' = registered op s
  /\ bounds_begun op s s'.
Proof.
  unfold bounds_begun.
  destruct op as [c | c | c];
    cbn [insert rows_written registered centroid_of box_of]; intros H He.
  1, 2: pose proof (add_cube_raise_dims _ _ _ _ H) as Hd;
    pose proof (add_cube_inv _ _ _ _ H) as (Ht & Hm & _);
    apply add_cube_stores in H
      as [(-> & _) | (_ & Hlt & Hc & Hv & Hi)];
    [destruct He; discriminate | auto 10].
  destruct (comp_faces c) as [| first rest] eqn:Hf.
  { pose proof (add_composite_empty c s Hf) as [E _].
    rewrite H in E. cbn [snd] in E. inversion E; subst e.
    destruct He; discriminate. }
  rewrite <- Hf.
  pose proof (add_composite_raise_dims _ _ _ _ _ _ H Hf) as Hd.
  assert (Hne : comp_faces c <> []) by (rewrite Hf; discriminate).
  clear Hf.
  pose proof (add_composite_inv _ _ _ _ H) as Hinv. cbv zeta in Hinv.
  destruct Hinv as (Ht & Hm & _).
  apply add_composite_stores in H; [| exact Hne].
  cbv zeta in H. destruct H as (a & Ha & [(E & _) | (Hw & Hv & Hi & _)]).
  { inversion E; subst e. destruct He; discriminate. }
  split; [exists a; auto |]. auto.
Qed.

(** C1, against the claim as stated: adding a second cube under the bound
    name "a" raises after the row has gone in, and a mutation with a known
    property followed by an unknown one raises after the known one has been
    written. *)
Lemma failed_calls_leave_effects :
  snd (add_cube cube_a space_a) = Raise PyException
  /\ primitive_counter space_a = 1
  /\ primitive_counter (fst (add_cube cube_a space_a)) = 2
  /\ cuboid_visual_metadata space_a !! "bogus" = None
  /\ snd (mutate_by_name "a" [("alpha", VFloat 1); ("bogus", VNone)] space_a)
     = Raise KeyError
  /\ cuboid_visual_metadata space_a !! "alpha" = Some [VFloat 0]
  /\ cuboid_visual_metadata
       (fst (mutate_by_name "a" [("alpha", VFloat 1); ("bogus", VNone)] space_a))
       !! "alpha" = Some [VFloat 1].
Proof. vm_compute. repeat split; reflexivity. Qed.

(** C1, amended: when an insertion fails on a name already bound, or on the
    style, the name index, [num_objs], [time_step], [scene_counter] and the
    change log are as before the call, and what the call wrote before it
    raised stays: [primitive_counter] has advanced by the rows written, the
    primitive store holds them, the visual metadata has the properties of
    the object appended, the index has the object registered, and the
    bounds have its centroid and box.  When a mutation fails, or returns,
    everything but the visual metadata is as before; when its first
    property is unknown, or its selection fails, the whole space is. *)
Theorem failed_call_residue (s : Space) :
  (forall op s' e,
     insert op s = (s', Raise e) ->
     e = PyException \/ e = NotImplementedError ->
     same_bookkeeping s s'
     /\ primitive_counter s' = primitive_counter s + length (rows_of op)
     /\ rows_written op s s'
     /\ cuboid_index s' = registered op s
     /\ bounds_begun op s s')
  /\ (forall sel kwargs, visual_only s (fst (mutate sel kwargs s)))
  /\ (forall sel key value kwargs,
        cuboid_visual_metadata s !! key = None ->
        fst (mutate sel ((key, value) :: kwargs) s) = s
        /\ snd (mutate sel ((key, value) :: kwargs) s) <> Ok tt)
  /\ (forall sel kwargs s' e,
        select sel s = (s', Raise e) ->
        mutate sel kwargs s = (s, Raise e)).
Proof.
  split; [| split; [| split]].
  - intros op s' e H He.
    destruct (insert_raise _ _ _ _ H He) as [Hbk Hp].
    destruct (insert_raise_written _ _ _ _ H He) as (Hw & Hi & Hb).
    auto.
  - intros sel kwargs. rewrite mutate_mutation.
    apply mutation_visual_only, select_read_only.
  - intros sel key value kwargs Hkey. rewrite mutate_mutation.
    destruct (mutation_unknown_first (select sel) key value kwargs s
                (select_read_only sel) Hkey) as [e [-> | ->]];
      split; cbn [fst snd]; congruence.
  - intros sel kwargs s' e H. rewrite mutate_mutation.
    eapply mutation_select_fails; [apply select_read_only | exact H].
Qed.

Lemma failed_call_residue_witness :
  (same_bookkeeping space_a (fst (insert (AddCube cube_a) space_a))
   /\ primitive_counter (fst (insert (AddCube cube_a) space_a))
      = primitive_counter space_a + 1
   /\ rows_written (AddCube cube_a) space_a
        (fst (insert (AddCube cube_a) space_a))
   /\ cuboid_index (fst (insert (AddCube cube_a) space_a))
      = registered (AddCube cube_a) space_a
   /\ bounds_begun (AddCube cube_a) space_a
        (fst (insert (AddCube cube_a) space_a)))
  /\ (same_bookkeeping space_a (fst (insert (AddComposite triple_classic) space_a))
      /\ rows_written (AddComposite triple_classic) space_a
           (fst (insert (AddComposite triple_classic) space_a)))
  /\ fst (mutate (ByName "a") [("bogus", VNone)] space_a) = space_a
  /\ mutate (ByName "z") [("alpha", VFloat 1)] space_a
     = (space_a, Raise ValueError).
Proof.
  split; [| split; [| split]].
  - apply (proj1 (failed_call_residue space_a) (AddCube cube_a) _ PyException).
    + vm_compute. reflexivity.
    + left. reflexivity.
  - destruct (proj1 (failed_call_residue space_a) (AddComposite triple_classic)
                (fst (insert (AddComposite triple_classic) space_a))
                NotImplementedError) as (Hbk & _ & Hw & _).
    + vm_compute. reflexivity.
    + right. reflexivity.
    + split; assumption.
  - apply (proj1 (proj2 (proj2 (failed_call_residue space_a)))
             (ByName "a") "bogus" VNone []).
    vm_compute. reflexivity.
  - apply (proj2 (proj2 (proj2 (failed_call_residue space_a)))
             (ByName "z") _ space_a ValueError).
    vm_compute. reflexivity.
Defined.

(** ** Counters and the change log under insertion *)

(** When an insertion returns. *)
Lemma insert_goes_through (op : insertion) (s : Space) :
  0 < length (cuboid_coordinates s) ->
  primitive_counter s <= length (cuboid_coordinates s) ->
  rows_of op <> [] ->
  primitive_counter s + length (rows_of op)
    <= 2 * length (cuboid_coordinates s)
  \/ primitive_counter s = 0 ->
  (forall n, name_of op = Some n -> cuboid_names s !! n = None) ->
  (forall c, op = AddComposite c -> comp_style c <> "classic") ->
  exists s', insert op s = (s', Ok tt).
Proof.
  intros H0 Hpc Hrows Hfit Hfree Hstyle.
  destruct (insert op s) as [s' r] eqn:H. exists s'. f_equal.
  destruct op as [c | c | c]; cbn [insert rows_of name_of length] in *.
  1, 2: pose proof (add_cube_inv _ _ _ _ H) as (_ & _ & _ & Hinv);
    apply add_cube_room in H as (_ & _ & _ & Hr); try assumption;
    destruct r as [[] | e |]; [reflexivity | | destruct Hr];
    destruct Hr as [-> _];
    destruct Hinv as [_ [(_ & _ & n & Hn & Hb) | [E _]]]; [| discriminate];
    rewrite (Hfree n Hn) in Hb; destruct Hb; discriminate.
  apply add_composite_room in H as (_ & _ & _ & Hr); try assumption.
  destruct r as [[] | e |]; [reflexivity | | destruct Hr].
  exfalso.
  destruct Hr as [_ [(_ & E) | [(_ & cap & Hcap & Hlt)
                 | [(_ & Hst) | (_ & n & Hn & Hb)]]]].
  - contradiction.
  - apply composite_capacity_Some in Hcap as [Hc1 Hc2].
    destruct (Nat.le_gt_cases (length (cuboid_coordinates s))
                (primitive_counter s + length (comp_faces c))) as [L | L];
      [apply Hc2 in L |]; lia.
  - exact (Hstyle c eq_refl Hst).
  - rewrite (Hfree n Hn) in Hb. destruct Hb; discriminate.
Qed.

(** C8, against the claim as stated: a second cube under the bound name "a"
    is a call that advances [primitive_counter] and neither [time_step] nor
    [num_objs]. *)
Lemma failed_add_advances_rows_only :
  snd (add_cube cube_a space_a) = Raise PyException
  /\ primitive_counter (fst (add_cube cube_a space_a))
     = primitive_counter space_a + 1
  /\ time_step (fst (add_cube cube_a space_a)) = time_step space_a
  /\ num_objs (fst (add_cube cube_a space_a)) = num_objs space_a.
Proof. vm_compute. repeat split; reflexivity. Qed.

(** C8, amended: an [add_cube], [add_cuboid] or [add_composite] call that
    returns has advanced [time_step] by one and [num_objs] by one, whatever
    the number of rows, and [primitive_counter] by the number of rows
    inserted: one for a cube or cuboid, [k] for a composite of [k] rows.
    And the call does return when the counter is within a non-empty array,
    the object has rows, they fit twice the current capacity (or the space
    holds no rows yet), its name is free or absent and, for a composite,
    its style is not "classic". *)
Theorem add_advances_counters (op : insertion) (s : Space) :
  (forall s',
     insert op s = (s', Ok tt) ->
     time_step s' = time_step s + 1
     /\ num_objs s' = num_objs s + 1
     /\ primitive_counter s' =
          primitive_counter s
          + match op with
            | AddCube _ | AddCuboid _ => 1
            | AddComposite composite => length (comp_faces composite)
            end)
  /\ (0 < length (cuboid_coordinates s) ->
      primitive_counter s <= length (cuboid_coordinates s) ->
      rows_of op <> [] ->
      primitive_counter s + length (rows_of op)
        <= 2 * length (cuboid_coordinates s)
      \/ primitive_counter s = 0 ->
      (forall n, name_of op = Some n -> cuboid_names s !! n = None) ->
      (forall c, op = AddComposite c -> comp_style c <> "classic") ->
      exists s', insert op s = (s', Ok tt)).
Proof.
  split; [| apply insert_goes_through].
  intros s' H. apply insert_ok in H.
  destruct H as (_ & _ & Hn & Hp & Ht & _).
  repeat split; [exact Ht | exact Hn |].
  rewrite Hp. destruct op; reflexivity.
Qed.

Lemma add_advances_counters_witness :
  exists s',
    insert (AddComposite twelve) space_a = (s', Ok tt)
    /\ time_step s' = time_step space_a + 1
    /\ num_objs s' = num_objs space_a + 1
    /\ primitive_counter s' = primitive_counter space_a + 12.
Proof.
  destruct (add_advances_counters (AddComposite twelve) space_a)
    as [Hadv Hret].
  destruct Hret as [s' H].
  - vm_compute. lia.
  - vm_compute. lia.
  - discriminate.
  - left. vm_compute. lia.
  - intros n Hn. discriminate.
  - intros c E. inversion E. discriminate.
  - exists s'. split; [exact H |]. apply Hadv in H. exact H.
Defined.

(** C10, against the claim as stated: a composite in the style "classic" is
    a call that appends nothing to the change log. *)
Lemma failed_add_logs_nothing :
  snd (add_composite triple_classic space_a) = Raise NotImplementedError
  /\ changelog (fst (add_composite triple_classic space_a))
     = changelog space_a.
Proof. vm_compute. repeat split; reflexivity. Qed.

(** C10, amended: an [add_cube], [add_cuboid] or [add_composite] call that
    returns has appended exactly one entry to the change log, an [Addition]
    stamped with the time step of the call and with name [None], also when
    the object carries a name.  And the call does return when the counter
    is within a non-empty array, the object has rows, they fit twice the
    current capacity (or the space holds no rows yet), its name is free or
    absent and, for a composite, its style is not "classic". *)
Theorem add_logs_unnamed_addition (op : insertion) (s : Space) :
  (forall s',
     insert op s = (s', Ok tt) ->
     changelog s' = changelog s ++ [Addition (time_step s) None])
  /\ (0 < length (cuboid_coordinates s) ->
      primitive_counter s <= length (cuboid_coordinates s) ->
      rows_of op <> [] ->
      primitive_counter s + length (rows_of op)
        <= 2 * length (cuboid_coordinates s)
      \/ primitive_counter s = 0 ->
      (forall n, name_of op = Some n -> cuboid_names s !! n = None) ->
      (forall c, op = AddComposite c -> comp_style c <> "classic") ->
      exists s', insert op s = (s', Ok tt)).
Proof.
  split; [| apply insert_goes_through].
  intros s' H. apply insert_ok in H. tauto.
Qed.

Lemma add_logs_unnamed_addition_witness :
  name_of (AddCuboid cube_b) = Some "b"
  /\ exists s',
       insert (AddCuboid cube_b) space_a = (s', Ok tt)
       /\ changelog s' = changelog space_a ++ [Addition (time_step space_a) None].
Proof.
  split; [reflexivity |].
  destruct (add_logs_unnamed_addition (AddCuboid cube_b) space_a)
    as [Hlog Hret].
  destruct Hret as [s' H].
  - vm_compute. lia.
  - vm_compute. lia.
  - discriminate.
  - left. vm_compute. lia.
  - intros n Hn. inversion Hn; subst n. vm_compute. reflexivity.
  - intros c E. discriminate.
  - exists s'. split; [exact H |]. apply Hlog in H. exact H.
Defined.
